(** * The LanceDB vector-store adapter of claude-context

    A shallow embedding of [packages/core/src/vectordb/lancedb-vectordb.ts]
    (class [LanceVectorDatabase]) and the properties of its operations.

    - [JS]    : the JavaScript values, string and array primitives the
                adapter relies on ([typeof], truthiness, [Array.slice],
                [String.match] for the one regular expression used);
    - [Lance] : the LanceDB object interface as the adapter calls it, and
                the adapter's methods, one definition per method;
    - [Mem]   : an executable in-memory backend implementing that interface,
                used to run the adapter on concrete collections. *)

From Stdlib Require Import ZArith Ascii String Floats.PrimFloat.
From stdpp Require Import gmap strings list.

(** ** JavaScript values and primitives *)
Module JS.

(** A JavaScript [number] is an IEEE-754 binary64 value: [float].
    Property names and the strings that rows hold are sequences of code
    units below 256 ([string]); plain objects are finite maps from the names
    of their own properties to values.  [JFun n] is the built-in function
    that [Object.prototype] holds under the name [n]. *)
#[warnings="-register-all"]
Inductive jsval : Type :=
| JUndefined
| JNull
| JBool (b : bool)
| JNum (x : float)
| JStr (s : string)
| JArr (xs : list jsval)
| JObj (fields : gmap string jsval)
| JFun (name : string).

(** A row of a LanceDB table, as [toArray()] hands it out: a plain object. *)
Abbreviation Row := (gmap string jsval).

(** [row.k] for the property names that the adapter writes out ([id],
    [metadata], [score], ...), none of which is inherited: a missing
    property reads as [undefined]. *)
Definition prop (row : Row) (k : string) : jsval := default JUndefined (row !! k).

(** The data properties of [Object.prototype], which every plain object
    inherits; [__proto__] is an accessor property of it. *)
Definition Object_prototype_methods : list string :=
  [ "constructor"; "__defineGetter__"; "__defineSetter__"; "hasOwnProperty";
    "__lookupGetter__"; "__lookupSetter__"; "isPrototypeOf"; "propertyIsEnumerable";
    "toString"; "valueOf"; "toLocaleString" ].

Definition Object_prototype : jsval :=
  JObj (list_to_map ((fun n => (n, JFun n)) <$> Object_prototype_methods)).

(** [r[f]] for a computed name [f]: an own property, else what
    [Object.prototype] has under that name, else [undefined]. *)
Definition get_prop (r : Row) (f : string) : jsval :=
  match r !! f with
  | Some v => v
  | None =>
      if bool_decide (f ∈ Object_prototype_methods) then JFun f
      else if bool_decide (f = "__proto__") then Object_prototype
      else JUndefined
  end.

(** [out[f] = v] on a plain object: an own property is created or
    overwritten, except under the name [__proto__], whose setter replaces
    the prototype (which is no part of a [Row]) and creates nothing. *)
Definition set_prop (out : Row) (f : string) (v : jsval) : Row :=
  if bool_decide (f = "__proto__") then out else <[f := v]> out.

(** ToBoolean. *)
Definition truthy (v : jsval) : bool :=
  match v with
  | JUndefined | JNull => false
  | JBool b => b
  | JNum x => negb (PrimFloat.eqb x 0 || PrimFloat.is_nan x)
  | JStr s => match s with EmptyString => false | String _ _ => true end
  | JArr _ | JObj _ | JFun _ => true
  end.

(** [ids.includes(v)] for an array of strings: SameValueZero never equates a
    string with a value of another type. *)
Definition includes (ids : list string) (v : jsval) : bool :=
  match v with
  | JStr s => bool_decide (s ∈ ids)
  | _ => false
  end.

(** A string that is matched against a regular expression is kept as its
    sequence of UTF-16 code units: the classes [\s] and [.] tell code units
    beyond 255 apart. *)
Definition jstring : Type := list N.

(** The code units of a string of code units below 256. *)
Definition units (s : string) : jstring := N_of_ascii <$> list_ascii_of_string s.

(** [v === wanted] for a string [wanted]. *)
Definition strict_eq_str (v : jsval) (wanted : jstring) : bool :=
  match v with
  | JStr s => bool_decide (units s = wanted)
  | _ => false
  end.

(** [arr.slice(0, end)] for an integral [end]: a negative [end] counts from
    the back of the array. *)
Definition slice0 {A : Type} (end_ : Z) (arr : list A) : list A :=
  let len := Z.of_nat (length arr) in
  let final := if (end_ <? 0)%Z then Z.max (len + end_) 0 else Z.min end_ len in
  take (Z.to_nat final) arr.

(** [s.startsWith(p)], with the rest of [s]. *)
Fixpoint strip_prefix (p s : string) : option string :=
  match p, s with
  | EmptyString, _ => Some s
  | String a p', String b s' => if Ascii.eqb a b then strip_prefix p' s' else None
  | String _ _, EmptyString => None
  end.

(** *** Regular expressions

    The fragment of the regular-expression language that the adapter's one
    pattern uses: literals, a greedy star over a character class, and a
    capturing greedy plus over a character class; a pattern is a sequence of
    such atoms anchored at both ends ([^ ... $]).  Without the [u] flag a
    pattern is matched code unit by code unit.  Matching backtracks the way
    the JavaScript engine does: a greedy quantifier takes as many code units
    as it can and gives them back one at a time. *)
Inductive atom : Type :=
| Lit (s : jstring)
| Star (cls : N -> bool)
| CapturePlus (cls : N -> bool).

Fixpoint strip_lit (l s : jstring) : option jstring :=
  match l, s with
  | [], _ => Some s
  | a :: l', b :: s' => if (a =? b)%N then strip_lit l' s' else None
  | _ :: _, [] => None
  end.

(** [greedy cls k acc s]: extend [acc] with the longest prefix of [s] in
    [cls] for which the continuation [k] succeeds. *)
Fixpoint greedy {C : Type} (cls : N -> bool) (k : jstring -> jstring -> option C)
    (acc s : jstring) : option C :=
  match s with
  | c :: s' =>
      if cls c then
        match greedy cls k (acc ++ [c]) s' with
        | Some r => Some r
        | None => k acc s
        end
      else k acc s
  | [] => k acc s
  end.

(** [exec r cap s]: match the anchored pattern [r] against all of [s];
    [cap] is the capture group so far.  [Some cap'] is a match. *)
Fixpoint exec (r : list atom) (cap : option jstring) (s : jstring)
    : option (option jstring) :=
  match r with
  | [] => match s with [] => Some cap | _ :: _ => None end
  | Lit l :: r' =>
      match strip_lit l s with
      | Some rest => exec r' cap rest
      | None => None
      end
  | Star cls :: r' => greedy cls (fun _ rest => exec r' cap rest) [] s
  | CapturePlus cls :: r' =>
      match s with
      | c :: s' =>
          if cls c
          then greedy cls (fun got rest => exec r' (Some got) rest) [c] s'
          else None
      | [] => None
      end
  end.

(** The line terminators: LF, CR, U+2028, U+2029. *)
Definition is_line_terminator (c : N) : bool :=
  ((c =? 10) || (c =? 13) || (c =? 8232) || (c =? 8233))%N.

(** [\s]: the white space of the language (TAB, VT, FF, U+FEFF and the
    space separators U+0020, U+00A0, U+1680, U+2000 to U+200A, U+202F,
    U+205F, U+3000) and the line terminators. *)
Definition is_space (c : N) : bool :=
  ((c =? 9) || (c =? 11) || (c =? 12) || (c =? 65279) ||
   (c =? 32) || (c =? 160) || (c =? 5760) || ((8192 <=? c) && (c <=? 8202)) ||
   (c =? 8239) || (c =? 8287) || (c =? 12288))%N
  || is_line_terminator c.

(** [.] without the [s] flag: anything but a line terminator. *)
Definition is_dot (c : N) : bool := negb (is_line_terminator c).

Definition dquote : jstring := [34%N].

(** [/^\s*relativePath\s*==\s*"(.+)"\s*$/] *)
Definition relativePath_filter : list atom :=
  [ Star is_space; Lit (units "relativePath"); Star is_space; Lit (units "==");
    Star is_space; Lit dquote; CapturePlus is_dot; Lit dquote; Star is_space ].

(** [s.match(re)] followed by [m[1]], for a pattern with one group that
    takes part in every match; [None] is the [null] of a failed match. *)
Definition match_group1 (re : list atom) (s : jstring) : option jstring :=
  match exec re None s with
  | Some (Some g) => Some g
  | _ => None
  end.

End JS.
Export JS.


(** ** Effects: exceptions over explicit state *)
Module Eff.

(** What a [throw] or a rejected promise carries. *)
Inductive exn : Type :=
| Error (msg : string)
| TypeError (msg : string)
| SyntaxError (msg : string).

Inductive result (A : Type) : Type :=
| Ok (a : A)
| Throw (e : exn).
Arguments Ok {A} a.
Arguments Throw {A} e.

(** A computation over a state [S] that returns or throws; the state it
    leaves behind is kept in both cases, as a [catch] block sees it. *)
Definition M (S A : Type) : Type := S -> result A * S.

Definition ret {S A} (a : A) : M S A := fun s => (Ok a, s).

Definition throw {S A} (e : exn) : M S A := fun s => (Throw e, s).

Definition bind {S A B} (m : M S A) (k : A -> M S B) : M S B :=
  fun s =>
    match m s with
    | (Ok a, s') => k a s'
    | (Throw e, s') => (Throw e, s')
    end.

(** [try { body } catch (e) { handler(e) }] *)
Definition try_catch {S A} (body : M S A) (handler : exn -> M S A) : M S A :=
  fun s =>
    match body s with
    | (Ok a, s') => (Ok a, s')
    | (Throw e, s') => handler e s'
    end.

(** Run a computation on the second component of the state. *)
Definition lift {T S A} (m : M S A) : M (T * S) A :=
  fun '(t, s) => let '(r, s') := m s in (r, (t, s')).

(** Read and update the first component of the state. *)
Definition this {T S} : M (T * S) T := fun s => (Ok (fst s), s).

Definition update {T S} (f : T -> T) : M (T * S) unit :=
  fun '(t, s) => (Ok tt, (f t, s)).

(** A pure inspection of the second component. *)
Definition inspect {T S A} (f : S -> A) : M (T * S) A :=
  fun s => (Ok (f (snd s)), s).

(** Computations that leave the first component of the state alone: in the
    adapter, the methods that never assign a field of [this]. *)
Definition preserves {T S A} (m : M (T * S) A) : Prop :=
  ∀ s, fst (snd (m s)) = fst s.

End Eff.
Export Eff.

Notation "'let*' x ':=' c 'in' k" := (bind c (fun x => k))
  (at level 10, x name, c at level 100, k at level 200).
Notation "c ';;;' k" := (bind c (fun _ => k))
  (at level 100, k at level 200, right associativity).

(** ** The adapter *)
Module Lance.

(** Modelled from the spec: [./types] is not among the sources.  The
    interfaces below have the fields that [lancedb-vectordb.ts] reads and
    writes; [VectorDocument] is the document of the spec's search result
    (relativePath, line range, content) with the fields [toRow] stores.
    Fields that the adapter copies from a backend row ([any] at run time)
    hold a [jsval]. *)
Module VectorDocument.
Record t : Type := mk {
  id : jsval;
  vector : list float;
  content : jsval;
  relativePath : jsval;
  startLine : jsval;
  endLine : jsval;
  fileExtension : jsval;
  metadata : jsval;
}.
End VectorDocument.

(** Modelled from the spec: [SearchOptions] of [./types], of which [search]
    reads [topK]. *)
Module SearchOptions.
Record t : Type := mk { topK : option Z }.
End SearchOptions.

(** Modelled from the spec: [VectorSearchResult] of [./types], as [fromRow]
    builds it. *)
Module VectorSearchResult.
Record t : Type := mk { document : VectorDocument.t; score : float }.
End VectorSearchResult.

(** The [data] of a hybrid request: a dense vector or a text query. *)
Inductive RequestData : Type :=
| DataVector (v : list float)
| DataText (s : string).

(** Modelled from the spec: [HybridSearchRequest] of [./types], of which
    [hybridSearch] reads [data] and [limit]. *)
Module HybridSearchRequest.
Record t : Type := mk { data : RequestData; limit : option Z }.
End HybridSearchRequest.

(** Modelled from the spec: [HybridSearchOptions] of [./types], of which
    [hybridSearch] reads [limit]. *)
Module HybridSearchOptions.
Record t : Type := mk { limit : option Z }.
End HybridSearchOptions.

(** Modelled from the spec: [HybridSearchResult] of [./types], as
    [hybridSearch] builds it. *)
Module HybridSearchResult.
Record t : Type := mk { document : VectorDocument.t; score : float }.
End HybridSearchResult.

Record LanceConfig : Type := { dbPath : string }.

(** What [await ... .toArray()] resolves to: the adapter asks
    [Array.isArray] before it trusts it. *)
Inductive Awaited : Type :=
| NotArray
| IsArray (rows : list Row).

Definition array_or_empty (arr : Awaited) : list Row :=
  match arr with
  | IsArray rows => rows
  | NotArray => []
  end.

(** The argument of [table.search(...)]: a vector, the object
    [{ vector, text, queryType }], or nothing. *)
Inductive SearchArg : Type :=
| SearchVector (v : list float)
| SearchObject (vector : list float) (text : string) (queryType : string)
| SearchAll.

(** The second argument of [table.createIndex(column, ...)]:
    [{ config: c }], [c] itself, or [{ type: t }]. *)
Inductive IndexArg : Type :=
| IndexConfig (c : jsval)
| IndexBare (c : jsval)
| IndexType (t : string).

Section Adapter.
Context {W : Type}.

(** *** The LanceDB objects

    [W] is the state of everything outside the adapter object: the LanceDB
    tables and the filesystem.  A method of a LanceDB object is a computation
    over [W]; a method the object may lack ([typeof x.m === 'function'] or
    [x.m?.()]) is an [option]. *)
Record Limited : Type := { toArray : M W Awaited }.

Record Fused : Type := { fused_limit : Z -> M W Limited }.

Record TextQuery : Type := { hybrid : option (M W (option Fused)) }.

Record Query : Type := {
  q_limit : Z -> M W Limited;
  q_text : option (string -> M W (option TextQuery));
}.

Record Table : Type := {
  t_createIndex : option (string -> IndexArg -> M W unit);
  t_search : option (SearchArg -> M W Query);
  t_add : option (list Row -> M W unit);
  t_delete : option ((Row -> bool) -> M W unit);
}.

Record Db : Type := {
  db_openTable : string -> M W Table;
  db_createTable : string -> list Row -> M W Table;
  db_dropTable : option (string -> M W unit);
}.

Record LanceModule : Type := {
  connect : string -> M W (option Db);
  Index_fts : M W jsval;
}.

(** The modules and globals the file imports. *)
Record Env : Type := {
  import_lancedb : M W LanceModule;
  fs_mkdirSync : string -> M W unit;
  fs_existsSync : string -> W -> bool;
  fs_rmSync : string -> M W unit;
  path_join : string -> string -> string;
  JSON_parse : jsval -> result jsval;
  JSON_stringify : jsval -> jsval;
}.

(** The fields of a [LanceVectorDatabase] object. *)
Record LanceVectorDatabase : Type := {
  config : LanceConfig;
  db : option Db;
  lancedb : option LanceModule;
}.

Definition constructor (config : LanceConfig) : LanceVectorDatabase :=
  {| config := config; db := None; lancedb := None |}.

Definition set_db (d : option Db) (o : LanceVectorDatabase) : LanceVectorDatabase :=
  {| config := config o; db := d; lancedb := lancedb o |}.

Definition set_lancedb (m : option LanceModule) (o : LanceVectorDatabase) : LanceVectorDatabase :=
  {| config := config o; db := db o; lancedb := m |}.

(** A method of the adapter: a computation over the object and [W]. *)
Abbreviation Method := (M (LanceVectorDatabase * W)).

Variable env : Env.

(** [this.lancedb.m] and [this.db.m]: a [TypeError] on [null]. *)
Definition the_lancedb : Method LanceModule :=
  let* o := this in
  match lancedb o with
  | Some m => ret m
  | None => throw (TypeError "Cannot read properties of null")
  end.

Definition the_db : Method Db :=
  let* o := this in
  match db o with
  | Some d => ret d
  | None => throw (TypeError "Cannot read properties of null")
  end.

Definition ensureClient : Method unit :=
  let* o := this in
  match db o with
  | Some _ => ret tt
  | None =>
      match lancedb o with
      | Some _ => ret tt
      | None =>
          let* m := try_catch (let* m := lift (import_lancedb env) in ret (Some m))
                              (fun _ => ret None) in
          update (set_lancedb m);;;
          match m with
          | Some _ => ret tt
          | None => throw (Error "Failed to load @lancedb/lancedb. Ensure it is installed.")
          end
      end;;;
      lift (fs_mkdirSync env (dbPath (config o)));;;
      let* m := the_lancedb in
      let* d := lift (connect m (dbPath (config o))) in
      update (set_db d)
  end.

Definition openOrCreateTable (collectionName : string) (initialRows : option (list Row))
    : Method Table :=
  ensureClient;;;
  try_catch
    (let* d := the_db in lift (db_openTable d collectionName))
    (fun _ =>
       let rows := default [] initialRows in
       let* d := the_db in lift (db_createTable d collectionName rows)).

Definition getTablePath (o : LanceVectorDatabase) (collectionName : string) : string :=
  path_join env (dbPath (config o)) collectionName.

Definition createCollection (collectionName : string) (dimension : Z)
    (description : option string) : Method unit :=
  openOrCreateTable collectionName (Some []);;;
  ret tt.

(** [this.lancedb.Index.fts()] *)
Definition fts : Method jsval :=
  let* m := the_lancedb in lift (Index_fts m).

Definition createHybridCollection (collectionName : string) (dimension : Z)
    (description : option string) : Method unit :=
  let* table := openOrCreateTable collectionName (Some []) in
  try_catch
    (match t_createIndex table with
     | Some createIndex =>
         try_catch
           (let* c := fts in lift (createIndex "content" (IndexConfig c)))
           (fun _ =>
              try_catch
                (let* c := fts in lift (createIndex "content" (IndexBare c)))
                (fun _ => lift (createIndex "content" (IndexType "fts"))))
     | None => ret tt
     end)
    (fun _ => ret tt).

Definition dropCollection (collectionName : string) : Method unit :=
  ensureClient;;;
  let* o := this in
  let* dropped :=
    match db o with
    | Some d =>
        match db_dropTable d with
        | Some dropTable =>
            try_catch (lift (dropTable collectionName);;; ret true)
                      (fun _ => ret false)
        | None => ret false
        end
    | None => ret false
    end in
  if dropped : bool then ret tt else
  let tableDir := getTablePath o collectionName in
  let* there := inspect (fs_existsSync env tableDir) in
  if there : bool then lift (fs_rmSync env tableDir) else ret tt.

Definition toRow (doc : VectorDocument.t) : Row :=
  let metadata :=
    match VectorDocument.metadata doc with
    | JUndefined | JNull => JObj ∅
    | v => v
    end in
  list_to_map
    [ ("id", VectorDocument.id doc);
      ("vector", JArr (JNum <$> VectorDocument.vector doc));
      ("content", VectorDocument.content doc);
      ("relativePath", VectorDocument.relativePath doc);
      ("startLine", VectorDocument.startLine doc);
      ("endLine", VectorDocument.endLine doc);
      ("fileExtension", VectorDocument.fileExtension doc);
      ("metadata", JSON_stringify env metadata) ].

Definition fromRow (row : Row) (score : float) (fallbackVector : list float)
    : VectorSearchResult.t :=
  let metadata :=
    match (if truthy (prop row "metadata")
           then JSON_parse env (prop row "metadata")
           else Ok (JObj ∅)) with
    | Ok v => v
    | Throw _ => JObj ∅
    end in
  {| VectorSearchResult.document :=
       {| VectorDocument.id := prop row "id";
          VectorDocument.vector := fallbackVector;
          VectorDocument.content := prop row "content";
          VectorDocument.relativePath := prop row "relativePath";
          VectorDocument.startLine := prop row "startLine";
          VectorDocument.endLine := prop row "endLine";
          VectorDocument.fileExtension := prop row "fileExtension";
          VectorDocument.metadata := metadata |};
     VectorSearchResult.score :=
       match prop row "score" with
       | JNum x => x
       | _ => score
       end |}.

Definition insert (collectionName : string) (documents : list VectorDocument.t)
    : Method unit :=
  match documents with
  | [] => ret tt
  | _ :: _ =>
      let rows := toRow <$> documents in
      let* table := openOrCreateTable collectionName (Some rows) in
      match t_add table with
      | Some add => lift (add rows)
      | None => ret tt
      end
  end.

Definition insertHybrid (collectionName : string) (documents : list VectorDocument.t)
    : Method unit :=
  insert collectionName documents.

(** [table.search(arg)] where [table.search] was not tested with [typeof]. *)
Definition call_search (table : Table) (arg : SearchArg) : Method Query :=
  match t_search table with
  | Some f => lift (f arg)
  | None => throw (TypeError "table.search is not a function")
  end.

(** [await table.search(arg).limit(k).toArray()] *)
Definition run_search (table : Table) (arg : SearchArg) (k : Z) : Method Awaited :=
  let* q := call_search table arg in
  let* l := lift (q_limit q k) in
  lift (toArray l).

Definition search (collectionName : string) (queryVector : list float)
    (options : option SearchOptions.t) : Method (list VectorSearchResult.t) :=
  let* table := openOrCreateTable collectionName (Some []) in
  let topK := default 10%Z (options ≫= SearchOptions.topK) in
  let* results :=
    try_catch
      (let* arr := run_search table (SearchVector queryVector) topK in
       ret (array_or_empty arr))
      (fun _ => ret []) in
  ret ((fun r => fromRow r 0 queryVector) <$> results).

(** [searchRequests.find(r => Array.isArray(r.data))] and
    [searchRequests.find(r => typeof r.data === 'string')] *)
Definition is_vector (r : HybridSearchRequest.t) : bool :=
  match HybridSearchRequest.data r with DataVector _ => true | DataText _ => false end.

Definition is_text (r : HybridSearchRequest.t) : bool :=
  match HybridSearchRequest.data r with DataText _ => true | DataVector _ => false end.

Definition hybrid_topK (searchRequests : list HybridSearchRequest.t)
    (options : option HybridSearchOptions.t) : Z :=
  match options ≫= HybridSearchOptions.limit with
  | Some k => k
  | None =>
      match head searchRequests ≫= HybridSearchRequest.limit with
      | Some k => if (k =? 0)%Z then 10%Z else k
      | None => 10%Z
      end
  end.

Definition hybrid_vector (searchRequests : list HybridSearchRequest.t) : list float :=
  match List.find is_vector searchRequests with
  | Some r => match HybridSearchRequest.data r with DataVector v => v | DataText _ => [] end
  | None => []
  end.

Definition hybrid_text (searchRequests : list HybridSearchRequest.t) : string :=
  match List.find is_text searchRequests with
  | Some r => match HybridSearchRequest.data r with DataText s => s | DataVector _ => EmptyString end
  | None => EmptyString
  end.

(** Variant A: [table.search({ vector, text, queryType: 'hybrid' }).limit(topK).toArray()] *)
Definition variantA (table : Table) (vector : list float) (text : string) (topK : Z)
    : Method Awaited :=
  run_search table (SearchObject vector text "hybrid") topK.

(** Variant B: [table.search(vector).text?.(text)?.hybrid?.()?.limit(topK).toArray()];
    a link of the optional chain that is missing makes the whole expression
    [undefined]. *)
Definition variantB (table : Table) (vector : list float) (text : string) (topK : Z)
    : Method Awaited :=
  let* q := call_search table (SearchVector vector) in
  match q_text q with
  | None => ret NotArray
  | Some text_ =>
      let* tq := lift (text_ text) in
      match tq with
      | None => ret NotArray
      | Some tq =>
          match hybrid tq with
          | None => ret NotArray
          | Some hybrid_ =>
              let* fq := lift hybrid_ in
              match fq with
              | None => ret NotArray
              | Some fq =>
                  let* l := lift (fused_limit fq topK) in
                  lift (toArray l)
              end
          end
      end
  end.

(** Variant C: [table.search(vector).limit(topK).toArray()] *)
Definition variantC (table : Table) (vector : list float) (topK : Z) : Method Awaited :=
  run_search table (SearchVector vector) topK.

(** The cascade of call shapes that [hybridSearch] tries, in order. *)
Definition try_variants (table : Table) (vector : list float) (text : string) (topK : Z)
    : Method Awaited :=
  try_catch (variantA table vector text topK)
    (fun _ =>
       try_catch (variantB table vector text topK)
         (fun _ => variantC table vector topK)).

Definition hybrid_result (vector : list float) (r : Row) : HybridSearchResult.t :=
  {| HybridSearchResult.document := VectorSearchResult.document (fromRow r 0 vector);
     HybridSearchResult.score := match prop r "score" with JNum x => x | _ => 0%float end |}.

Definition hybridSearch (collectionName : string)
    (searchRequests : list HybridSearchRequest.t)
    (options : option HybridSearchOptions.t) : Method (list HybridSearchResult.t) :=
  let* table := openOrCreateTable collectionName (Some []) in
  let topK := hybrid_topK searchRequests options in
  let vector := hybrid_vector searchRequests in
  let text := hybrid_text searchRequests in
  let* outcome :=
    try_catch
      (match t_search table with
       | Some _ =>
           let* arr := try_variants table vector text topK in
           ret (inl (array_or_empty arr))
       | None => ret (inl [])
       end)
      (fun _ =>
         let* dense := search collectionName vector (Some (SearchOptions.mk (Some topK))) in
         ret (inr ((fun r => {| HybridSearchResult.document := VectorSearchResult.document r;
                                HybridSearchResult.score := VectorSearchResult.score r |})
                     <$> dense))) in
  match outcome with
  | inl results => ret (hybrid_result vector <$> results)
  | inr dense => ret dense
  end.

Definition delete (collectionName : string) (ids : list string) : Method unit :=
  match ids with
  | [] => ret tt
  | _ :: _ =>
      let* table := openOrCreateTable collectionName (Some []) in
      let* deleted :=
        match t_delete table with
        | Some delete_ =>
            try_catch
              (lift (delete_ (fun row => includes ids (prop row "id")));;; ret true)
              (fun _ => ret false)
        | None => ret false
        end in
      if deleted : bool then ret tt else
      let* all := run_search table SearchAll 1000000 in
      let* remaining :=
        match all with
        | IsArray rows => ret (List.filter (fun r => negb (includes ids (prop r "id"))) rows)
        | NotArray => throw (TypeError "all.filter is not a function")
        end in
      dropCollection collectionName;;;
      openOrCreateTable collectionName (Some remaining);;;
      ret tt
  end.

(** [out[f] = r[f]] for every requested field, in order. *)
Definition project (outputFields : list string) (r : Row) : Row :=
  foldl (fun out f => set_prop out f (get_prop r f)) ∅ outputFields.

Definition query (collectionName : string) (filter : jstring) (outputFields : list string)
    (limit : option Z) : Method (list Row) :=
  let* table := openOrCreateTable collectionName (Some []) in
  let max := default 16384%Z limit in
  let* rows :=
    try_catch (run_search table SearchAll max) (fun _ => ret (IsArray [])) in
  let m :=
    match filter with
    | [] => None
    | _ :: _ => match_group1 relativePath_filter filter
    end in
  match rows with
  | IsArray rows =>
      let rows :=
        match m with
        | Some wanted => List.filter (fun r => strict_eq_str (prop r "relativePath") wanted) rows
        | None => rows
        end in
      ret (project outputFields <$> slice0 max rows)
  | NotArray => throw (TypeError "rows.slice is not a function")
  end.

End Adapter.
End Lance.

(** ** An in-memory LanceDB

    An executable backend behind the interface of [Lance]: tables are lists
    of rows stored under their directory path.  It behaves as
    [@lancedb/lancedb] does at the calls the adapter makes: [table.search]
    needs a query, [table.delete] takes a filter string and rejects a
    function, and [createTable] refuses an empty list of rows.  What varies
    between LanceDB versions and bindings (which call shapes of a hybrid
    query are accepted, which methods exist) is a [Profile].  The backend
    keeps a trace of the calls it receives. *)
Module Mem.
Import Lance.

Inductive Call : Type :=
| CallImport
| CallConnect (path : string)
| CallOpenTable (name : string)
| CallCreateTable (name : string) (rows : list Row)
| CallDropTable (name : string)
| CallCreateIndex (column : string) (arg : IndexArg)
| CallSearch (arg : SearchArg)
| CallText (text : string)
| CallAdd (rows : list Row)
| CallDelete.

(** The chained hybrid call [search(v).text(t).hybrid()]: the builder has no
    [text] method, has one that throws, or supports the chain. *)
Inductive ChainSupport : Type := ChainMissing | ChainThrows | ChainFuses.

(** [table.delete] called with a JavaScript predicate: no such method, or a
    method that rejects anything but a filter string. *)
Inductive DeleteSupport : Type := DeleteMissing | DeleteRejects.

Record Profile : Type := {
  p_installed : bool;                        (* the package can be imported *)
  p_createIndex : option (IndexArg -> bool); (* the shapes createIndex accepts *)
  p_accepts : list float -> bool;            (* query vectors the tables accept *)
  p_object_search : bool;                    (* search({vector,text,queryType}) *)
  p_chain : ChainSupport;
  p_delete : DeleteSupport;
  p_dropTable : bool;                        (* db.dropTable exists *)
  p_rank : list float -> list Row -> list Row;            (* dense ranking *)
  p_fuse : list float -> string -> list Row -> list Row;  (* native fusion *)
}.

Record World : Type := {
  dirs : gmap string (list Row);   (* table directory -> rows *)
  indexes : list string;           (* table directories with an FTS index *)
  calls : list Call;               (* most recent first *)
}.

(** The world after further calls [cs], most recent first. *)
Definition logged (cs : list Call) (w : World) : World :=
  {| dirs := dirs w; indexes := indexes w; calls := cs ++ calls w |}.

Definition log (c : Call) : M World unit :=
  fun w => (Ok tt, {| dirs := dirs w; indexes := indexes w; calls := c :: calls w |}).

Definition set_dirs (f : gmap string (list Row) -> gmap string (list Row)) : M World unit :=
  fun w => (Ok tt, {| dirs := f (dirs w); indexes := indexes w; calls := calls w |}).

Definition add_index (dir : string) : M World unit :=
  fun w => (Ok tt, {| dirs := dirs w; indexes := dir :: indexes w; calls := calls w |}).

Definition rows_at (dir : string) : M World (list Row) :=
  fun w =>
    match dirs w !! dir with
    | Some rows => (Ok rows, w)
    | None => (Throw (Error "Table not found"), w)
    end.

(** Fused search needs a full-text index on the table. *)
Definition has_index (dir : string) : M World bool :=
  fun w => (Ok (bool_decide (dir ∈ indexes w)), w).

Section Backend.
Variable p : Profile.

(** [.limit(k)] then [.toArray()]: the first [k] rows of the view. *)
Definition limited (dir : string) (view : list Row -> list Row) (k : Z) : Limited :=
  {| toArray := let* rows := rows_at dir in ret (IsArray (take (Z.to_nat k) (view rows))) |}.

Definition view_of (arg : SearchArg) : list Row -> list Row :=
  match arg with
  | SearchVector v => p_rank p v
  | SearchObject v t _ => p_fuse p v t
  | SearchAll => fun rows => rows
  end.

Definition arg_vector (arg : SearchArg) : list float :=
  match arg with
  | SearchVector v => v
  | SearchObject v _ _ => v
  | SearchAll => []
  end.

Definition mem_query (dir : string) (arg : SearchArg) : Query :=
  {| q_limit := fun k => ret (limited dir (view_of arg) k);
     q_text :=
       match p_chain p with
       | ChainMissing => None
       | ChainThrows =>
           Some (fun text => log (CallText text);;;
                             throw (Error "full-text search is not supported"))
       | ChainFuses =>
           Some (fun text =>
                   log (CallText text);;;
                   let* indexed := has_index dir in
                   if indexed : bool then
                   ret (Some {| hybrid := Some (ret (Some
                     {| fused_limit := fun k =>
                          ret (limited dir (p_fuse p (arg_vector arg) text) k) |})) |})
                   else throw (Error "no full-text index"))
       end |}.

Definition mem_table (dir : string) : Table :=
  {| t_createIndex :=
       match p_createIndex p with
       | None => None
       | Some accepts =>
           Some (fun column arg =>
                   log (CallCreateIndex column arg);;;
                   let* rows := rows_at dir in
                   match rows with
                   | [] => throw (Error "cannot index a column of an empty table")
                   | _ :: _ =>
                       if accepts arg then add_index dir
                       else throw (Error "unsupported index configuration")
                   end)
       end;
     t_search :=
       Some (fun arg =>
               log (CallSearch arg);;;
               match arg with
               | SearchObject _ _ _ =>
                   let* indexed := has_index dir in
                   if p_object_search p && indexed then ret (mem_query dir arg)
                   else throw (Error "unsupported query")
               | SearchVector v =>
                   if p_accepts p v then ret (mem_query dir arg)
                   else throw (Error "query vector has the wrong dimension")
               | SearchAll => throw (TypeError "search needs a query vector or text")
               end);
     t_add :=
       Some (fun rows =>
               log (CallAdd rows);;;
               let* old := rows_at dir in
               set_dirs (<[dir := old ++ rows]>));
     t_delete :=
       match p_delete p with
       | DeleteMissing => None
       | DeleteRejects =>
           Some (fun _ => log CallDelete;;;
                          throw (TypeError "predicate must be a string"))
       end |}.

Definition join (a b : string) : string := a +:+ "/" +:+ b.

Definition mem_db (root : string) : Db :=
  {| db_openTable := fun name =>
       log (CallOpenTable name);;;
       rows_at (join root name);;;
       ret (mem_table (join root name));
     db_createTable := fun name rows =>
       log (CallCreateTable name rows);;;
       match rows with
       | [] => throw (Error "At least one record or a schema needs to be provided")
       | _ :: _ =>
           let* there :=
             try_catch (rows_at (join root name);;; ret true) (fun _ => ret false) in
           if there : bool then throw (Error "Table already exists")
           else set_dirs (<[join root name := rows]>);;; ret (mem_table (join root name))
       end;
     db_dropTable :=
       if p_dropTable p then
         Some (fun name =>
                 log (CallDropTable name);;;
                 rows_at (join root name);;;
                 set_dirs (base.delete (join root name)))
       else None |}.

Definition mem_module : LanceModule :=
  {| connect := fun path => log (CallConnect path);;; ret (Some (mem_db path));
     Index_fts := ret (JStr "fts") |}.

(** The environment: the filesystem view of the table directories; the
    runtime's [JSON] object is supplied by the caller. *)
Definition mem_env (parse : jsval -> result jsval) (stringify : jsval -> jsval) : Env :=
  {| import_lancedb :=
       log CallImport;;;
       if p_installed p then ret mem_module
       else throw (Error "Cannot find module '@lancedb/lancedb'");
     fs_mkdirSync := fun _ => ret tt;
     fs_existsSync := fun path w => bool_decide (is_Some (dirs w !! path));
     fs_rmSync := fun path => set_dirs (base.delete path);
     path_join := join;
     JSON_parse := parse;
     JSON_stringify := stringify |}.

End Backend.
End Mem.

(** ** Sample data *)
Module Sample.
Import Lance Mem.

(** [JSON.parse] and [JSON.stringify] at the texts the samples contain: the
    empty object is the only metadata the sample documents carry. *)
Definition parse (v : jsval) : result jsval :=
  match v with
  | JStr "{}" => Ok (JObj ∅)
  | _ => Throw (SyntaxError "Unexpected token in JSON")
  end.

Definition stringify (v : jsval) : jsval := JStr "{}".

Definition chunk (id path content : string) (v : list float) (extra : list (string * jsval))
    : Row :=
  list_to_map
    ([ ("id", JStr id); ("vector", JArr (JNum <$> v)); ("content", JStr content);
       ("relativePath", JStr path); ("startLine", JNum 1); ("endLine", JNum 9);
       ("fileExtension", JStr ".ts"); ("metadata", JStr "{}") ] ++ extra).

Definition lance : Profile :=
  {| p_installed := true;
     p_createIndex := Some (fun arg => match arg with IndexConfig _ => true | _ => false end);
     p_accepts := fun v => bool_decide (length v = 2);
     p_object_search := true;
     p_chain := ChainFuses;
     p_delete := DeleteRejects;
     p_dropTable := true;
     p_rank := fun _ rows => rows;
     p_fuse := fun _ _ rows => rows |}.

Definition env : Env := mem_env lance parse stringify.

Definition fresh : @LanceVectorDatabase World :=
  constructor {| dbPath := ".lancedb" |}.

Definition rows3 : list Row :=
  [ chunk "a" "src/a.ts" "alpha" [1; 0]%float [("score", JNum 0.25)];
    chunk "b" "src/b.ts" "beta" [0; 1]%float [("score", JNum 7.5)];
    chunk "c" "src/a.ts" "gamma" [1; 1]%float [] ].

Definition world (rows : list Row) : World :=
  {| dirs := {[ ".lancedb/chunks" := rows ]}; indexes := []; calls := [] |}.

(** The same collection with a full-text index on it. *)
Definition indexed_world (rows : list Row) : World :=
  {| dirs := {[ ".lancedb/chunks" := rows ]}; indexes := [".lancedb/chunks"]; calls := [] |}.

(** No collection yet. *)
Definition empty_world : World := {| dirs := ∅; indexes := []; calls := [] |}.

(** The adapter object once [ensureClient] has run against profile [p]. *)
Definition connected (p : Profile) : @LanceVectorDatabase World :=
  {| config := {| dbPath := ".lancedb" |};
     db := Some (mem_db p ".lancedb");
     lancedb := Some (mem_module p) |}.

(** A LanceDB without hybrid search: no index creation, no fused call. *)
Definition plain : Profile :=
  {| p_installed := true;
     p_createIndex := None;
     p_accepts := fun v => bool_decide (length v = 2);
     p_object_search := false;
     p_chain := ChainThrows;
     p_delete := DeleteRejects;
     p_dropTable := true;
     p_rank := fun _ rows => rows;
     p_fuse := fun _ _ rows => rows |}.

Definition plain_env : Env := mem_env plain parse stringify.

(** A LanceDB whose tables reject every shape of full-text index. *)
Definition no_fts : Profile :=
  {| p_installed := true;
     p_createIndex := Some (fun _ => false);
     p_accepts := fun v => bool_decide (length v = 2);
     p_object_search := false;
     p_chain := ChainThrows;
     p_delete := DeleteRejects;
     p_dropTable := true;
     p_rank := fun _ rows => rows;
     p_fuse := fun _ _ rows => rows |}.

Definition no_fts_env : Env := mem_env no_fts parse stringify.

(** The same, with a query builder that has no [text] method. *)
Definition no_chain : Profile :=
  {| p_installed := true;
     p_createIndex := None;
     p_accepts := fun v => bool_decide (length v = 2);
     p_object_search := false;
     p_chain := ChainMissing;
     p_delete := DeleteRejects;
     p_dropTable := true;
     p_rank := fun _ rows => rows;
     p_fuse := fun _ _ rows => rows |}.

Definition no_chain_env : Env := mem_env no_chain parse stringify.

(** A machine on which the package is not installed. *)
Definition missing : Profile :=
  {| p_installed := false;
     p_createIndex := None;
     p_accepts := fun _ => true;
     p_object_search := false;
     p_chain := ChainMissing;
     p_delete := DeleteMissing;
     p_dropTable := false;
     p_rank := fun _ rows => rows;
     p_fuse := fun _ _ rows => rows |}.

Definition missing_env : Env := mem_env missing parse stringify.

(** The requests of a hybrid query: a dense vector and a text. *)
Definition requests : list HybridSearchRequest.t :=
  [ HybridSearchRequest.mk (DataVector [1; 0]%float) None;
    HybridSearchRequest.mk (DataText "alpha") None ].

(** The table handle of the collection and the world once it is opened. *)
Definition chunks_table (p : Profile) : Table := mem_table p ".lancedb/chunks".

Definition opened (w : World) : World := logged [CallOpenTable "chunks"] w.

(** A row whose metadata is not JSON. *)
Definition broken_row : Row :=
  <["metadata" := JStr "{oops"]> (chunk "x" "src/x.ts" "chi" [0; 0]%float []).

(** The filter [relativePath == "src/a.ts"]. *)
Definition path_filter : jstring :=
  units "relativePath == " ++ dquote ++ units "src/a.ts" ++ dquote.

End Sample.

(** ** What the claims speak about *)
Module Spec.
Import Lance.

(** The score a backend row carries: its [score] property when that is a
    number, and 0 otherwise. *)
Definition row_score (r : Row) : float :=
  match prop r "score" with
  | JNum x => x
  | _ => 0%float
  end.

(** A score normalized to the interval [0,1]. *)
Definition normalized (x : float) : Prop :=
  PrimFloat.leb 0 x = true ∧ PrimFloat.leb x 1 = true.

(** A list of scores in descending order. *)
Definition descending (xs : list float) : Prop :=
  ∀ i a b, xs !! i = Some a → xs !! S i = Some b → PrimFloat.leb b a = true.

Definition score_contract (xs : list float) : Prop :=
  Forall normalized xs ∧ descending xs.

(** A result refers to a row: the fields that locate the chunk are the
    row's. *)
Definition refers_to (d : VectorDocument.t) (r : Row) : Prop :=
  VectorDocument.relativePath d = prop r "relativePath" ∧
  VectorDocument.startLine d = prop r "startLine" ∧
  VectorDocument.endLine d = prop r "endLine" ∧
  VectorDocument.content d = prop r "content".

(** Every code unit of [s] is in the class. *)
Definition all_in (cls : N → bool) (s : jstring) : bool := forallb cls s.

(** What an anchored pattern denotes: the strings it matches, with the
    capture before and after. *)
Fixpoint accepts (r : list atom) (cap : option jstring) (s : jstring)
    (cap' : option jstring) : Prop :=
  match r with
  | [] => s = [] ∧ cap' = cap
  | Lit l :: r' => ∃ rest, s = l ++ rest ∧ accepts r' cap rest cap'
  | Star cls :: r' =>
      ∃ pre rest, s = pre ++ rest ∧ all_in cls pre = true ∧ accepts r' cap rest cap'
  | CapturePlus cls :: r' =>
      ∃ pre rest, s = pre ++ rest ∧ pre ≠ [] ∧ all_in cls pre = true ∧
                  accepts r' (Some pre) rest cap'
  end.

(** The filters of the shape [relativePath == "<value>"]: optional white
    space around the three tokens, and a value that is not empty and has no
    line terminator. *)
Definition filter_shape (filter value : jstring) : Prop :=
  ∃ a b c d,
    filter = a ++ units "relativePath" ++ b ++ units "==" ++ c ++ dquote ++ value ++
             dquote ++ d ∧
    all_in is_space a = true ∧ all_in is_space b = true ∧
    all_in is_space c = true ∧ all_in is_space d = true ∧
    all_in is_dot value = true ∧ value ≠ [].

(** The number of results that a call of [search] asks for: the [topK] of
    the options, 10 when there are no options or they give none. *)
Definition asks_for (opts : option SearchOptions.t) (k : Z) : Prop :=
  match opts with
  | Some o => match SearchOptions.topK o with Some k' => k = k' | None => k = 10%Z end
  | None => k = 10%Z
  end.

(** The limit of a call of [query]: 16384 when none is given. *)
Definition limit_or_default (limit : option Z) (max : Z) : Prop :=
  match limit with
  | Some m => max = m
  | None => max = 16384%Z
  end.

(** The query vector of a hybrid call: the data of the first request that
    carries a vector. *)
Inductive query_vector : list HybridSearchRequest.t → list float → Prop :=
| query_vector_here v limit reqs :
    query_vector (HybridSearchRequest.mk (DataVector v) limit :: reqs) v
| query_vector_later t limit reqs v :
    query_vector reqs v →
    query_vector (HybridSearchRequest.mk (DataText t) limit :: reqs) v.

(** The requests of a hybrid call that carries no vector. *)
Definition text_only (reqs : list HybridSearchRequest.t) : Prop :=
  Forall (fun r => ∃ t, HybridSearchRequest.data r = DataText t) reqs.

(** A list cut to a limit: its first [max] elements, and all but its last
    [-max] when [max] is negative. *)
Definition up_to {A : Type} (max : Z) (l : list A) : list A :=
  if (max <? 0)%Z then take (length l - Z.to_nat (- max)) l else take (Z.to_nat max) l.

(** [out] is [row] projected to [fields]: its own properties are the
    requested names other than [__proto__], each with the value that the
    row has under the name, which is [undefined] for a column the row lacks
    unless every object inherits a method of that name. *)
Definition projected (fields : list string) (row out : Row) : Prop :=
  ∀ f, out !! f =
       if bool_decide (f ∈ fields ∧ f ≠ "__proto__") then
         Some match row !! f with
              | Some v => v
              | None => if bool_decide (f ∈ Object_prototype_methods) then JFun f
                        else JUndefined
              end
       else None.

(** The calls of a trace that try the fused object shape
    [search({ vector, text, queryType })]. *)
Definition is_fused_call (c : Mem.Call) : bool :=
  match c with
  | Mem.CallSearch (SearchObject _ _ _) => true
  | _ => false
  end.

Definition fused_probes (cs : list Mem.Call) : nat :=
  length (List.filter is_fused_call cs).

(** A step of the backend that leaves the tables alone and makes no fused
    call. *)
Definition quiet (w w' : Mem.World) : Prop :=
  Mem.dirs w' = Mem.dirs w ∧
  fused_probes (Mem.calls w') = fused_probes (Mem.calls w).

(** The adapter object [o] has run [ensureClient] against the in-memory
    backend of profile [p] rooted at [root]. *)
Definition connected_to (p : Mem.Profile) (root : string)
    (o : @LanceVectorDatabase Mem.World) : Prop :=
  db o = Some (Mem.mem_db p root) ∧
  lancedb o = Some (Mem.mem_module p) ∧
  dbPath (config o) = root.

(** [n] calls of [hybridSearch] in a row, results dropped. *)
Fixpoint hybridSearch_times {W} (env : @Env W) (name : string)
    (reqs : list HybridSearchRequest.t) (hopts : option HybridSearchOptions.t)
    (n : nat) : M (@LanceVectorDatabase W * W) unit :=
  match n with
  | O => ret tt
  | S n' => hybridSearch env name reqs hopts;;; hybridSearch_times env name reqs hopts n'
  end.

(** The collection [name] of a database rooted at [root] holds exactly the
    rows [rows]. *)
Definition holds (w : Mem.World) (root name : string) (rows : list Row) : Prop :=
  Mem.dirs w !! Mem.join root name = Some rows.

End Spec.
Export Spec.
Import Lance.

(** ** Listing collections

    [hasCollection] and [listCollections], the two methods that use
    [db.tableNames] and [fs.readdirSync]. *)
Module Listing.
Import Lance.

(** What [await this.db.tableNames()] resolves to: an array of names, or a
    value that is no array and has no [includes] method. *)
Inductive AwaitedNames : Type :=
| NotNames
| IsNames (names : list string).

(** An entry of [fs.readdirSync(dir, { withFileTypes: true })]. *)
Record Dirent : Type := { name : string; isDirectory : bool }.

Section Listing.
Context {W : Type}.

(** The part of the outside world that only these two methods reach: the
    [tableNames] method of a database handle (it may be missing) and
    [fs.readdirSync]. *)
Record Lister : Type := {
  db_tableNames : @Db W -> option (M W AwaitedNames);
  fs_readdirSync : string -> M W (list Dirent);
}.

Variable env : @Env W.
Variable ext : Lister.

(** [this.db.tableNames], when [this.db] is set and the method exists. *)
Definition the_tableNames (o : @LanceVectorDatabase W) : option (M W AwaitedNames) :=
  match db o with
  | Some d => db_tableNames ext d
  | None => None
  end.

Definition hasCollection (collectionName : string) : M (@LanceVectorDatabase W * W) bool :=
  ensureClient env;;;
  let* o := this in
  let* answered :=
    match the_tableNames o with
    | Some tableNames =>
        try_catch
          (let* names := lift tableNames in
           match names with
           | IsNames names => ret (Some (bool_decide (collectionName ∈ names)))
           | NotNames => throw (TypeError "names.includes is not a function")
           end)
          (fun _ => ret None)
    | None => ret None
    end in
  match answered with
  | Some found => ret found
  | None => inspect (fs_existsSync env (getTablePath env o collectionName))
  end.

Definition listCollections : M (@LanceVectorDatabase W * W) (list string) :=
  ensureClient env;;;
  let* o := this in
  let* answered :=
    match the_tableNames o with
    | Some tableNames =>
        try_catch
          (let* names := lift tableNames in
           ret (Some match names with IsNames names => names | NotNames => [] end))
          (fun _ => ret None)
    | None => ret None
    end in
  match answered with
  | Some names => ret names
  | None =>
      try_catch
        (let* entries := lift (fs_readdirSync ext (dbPath (config o))) in
         ret (name <$> List.filter isDirectory entries))
        (fun _ => ret [])
  end.

End Listing.

(** The listing of the in-memory backend rooted at [root]: the names of the
    table directories under [root]. *)
Definition names_under (root : string) (w : Mem.World) : list string :=
  omap (fun entry => strip_prefix (root +:+ "/") (fst entry)) (map_to_list (Mem.dirs w)).

Definition mem_lister (has_tableNames : bool) (root : string) : @Lister Mem.World :=
  {| db_tableNames := fun _ =>
       if has_tableNames
       then Some (fun w => (Ok (IsNames (names_under root w)), w))
       else None;
     fs_readdirSync := fun dir w =>
       (Ok ((fun n => {| name := n; isDirectory := true |}) <$> names_under dir w), w) |}.

End Listing.

(** ** Further notions for the properties of the other methods *)
Module More.
Import Lance.

(** A method that leaves a connected adapter object as it is. *)
Definition stable {W A} (m : M (@LanceVectorDatabase W * W) A) : Prop :=
  ∀ o w, is_Some (db o) → fst (snd (m (o, w))) = o.

(** [doc.metadata ?? {}] *)
Definition metadata_or_empty (doc : VectorDocument.t) : jsval :=
  match VectorDocument.metadata doc with
  | JUndefined | JNull => JObj ∅
  | v => v
  end.

(** Sample documents. *)
Definition doc (id path content : string) (v : list float) : VectorDocument.t :=
  {| VectorDocument.id := JStr id;
     VectorDocument.vector := v;
     VectorDocument.content := JStr content;
     VectorDocument.relativePath := JStr path;
     VectorDocument.startLine := JNum 1;
     VectorDocument.endLine := JNum 9;
     VectorDocument.fileExtension := JStr ".ts";
     VectorDocument.metadata := JUndefined |}.

(** [r => ({ document: r.document, score: r.score })], the conversion of the
    last resort of [hybridSearch]. *)
Definition as_hybrid (r : VectorSearchResult.t) : HybridSearchResult.t :=
  {| HybridSearchResult.document := VectorSearchResult.document r;
     HybridSearchResult.score := VectorSearchResult.score r |}.

Definition docs2 : list VectorDocument.t :=
  [ doc "d1" "src/d.ts" "delta" [1; 0]%float; doc "d2" "src/d.ts" "epsilon" [0; 1]%float ].

End More.
Export More.

(** ** The pattern of [query] *)
Section RegexFacts.
Local Arguments String.append !_ _ / : simpl nomatch.
Local Arguments N.eqb : simpl never.

Lemma append_assoc (a b c : string) : (a +:+ b) +:+ c = a +:+ (b +:+ c).
Proof. induction a as [|x a IH]; simpl; congruence. Qed.

Lemma strip_prefix_app (l rest : string) : strip_prefix l (l +:+ rest) = Some rest.
Proof.
  induction l as [|x l IH]; simpl; [by destruct rest|]. by rewrite Ascii.eqb_refl.
Qed.

Lemma strip_prefix_sound (l s rest : string) :
  strip_prefix l s = Some rest → s = l +:+ rest.
Proof.
  revert s. induction l as [|x l IH]; intros [|y s]; simpl; try congruence.
  destruct (Ascii.eqb_spec x y) as [->|]; [|done].
  intros H. by rewrite (IH _ H).
Qed.

Lemma all_in_app cls (a b : jstring) :
  all_in cls (a ++ b) = all_in cls a && all_in cls b.
Proof. apply forallb_app. Qed.

Lemma strip_lit_app (l rest : jstring) : strip_lit l (l ++ rest) = Some rest.
Proof.
  induction l as [|x l IH]; simpl; [by destruct rest|]. by rewrite N.eqb_refl.
Qed.

Lemma strip_lit_sound (l s rest : jstring) : strip_lit l s = Some rest → s = l ++ rest.
Proof.
  revert s. induction l as [|x l IH]; intros [|y s]; simpl; try congruence.
  destruct (N.eqb_spec x y) as [->|]; [|done].
  intros H. by rewrite (IH _ H).
Qed.

Section Greedy.
Context {C : Type} (cls : N → bool) (k : jstring → jstring → option C).

(** A greedy quantifier that succeeds has taken some prefix in the class. *)
Lemma greedy_sound s acc r :
  greedy cls k acc s = Some r →
  ∃ pre rest, s = pre ++ rest ∧ all_in cls pre = true ∧ k (acc ++ pre) rest = Some r.
Proof.
  revert acc. induction s as [|c s IH]; intros acc; simpl.
  - intros H. exists [], []. split_and!; [done..|by rewrite app_nil_r].
  - destruct (cls c) eqn:Hc.
    + destruct (greedy cls k (acc ++ [c]) s) as [r'|] eqn:Hrec.
      * intros [= ->]. destruct (IH _ Hrec) as (pre & rest & -> & Hall & Hk).
        exists (c :: pre), rest. unfold all_in in *. simpl. rewrite Hc, Hall.
        split_and!; [done..|]. by rewrite <- app_assoc in Hk.
      * intros H. exists [], (c :: s). split_and!; [done..|by rewrite app_nil_r].
    + intros H. exists [], (c :: s). split_and!; [done..|by rewrite app_nil_r].
Qed.

(** When no longer prefix lets the continuation succeed, the quantifier
    takes nothing. *)
Lemma greedy_stop s acc :
  (∀ pre rest, pre ≠ [] → all_in cls pre = true → s = pre ++ rest →
     k (acc ++ pre) rest = None) →
  greedy cls k acc s = k acc s.
Proof.
  revert acc. induction s as [|c s IH]; intros acc Hfail; simpl; [done|].
  destruct (cls c) eqn:Hc; [|done].
  rewrite IH.
  - rewrite (Hfail [c] s); unfold all_in; simpl; by rewrite ?Hc.
  - intros pre rest Hne Hall ->. rewrite <- app_assoc. simpl.
    apply Hfail; unfold all_in in *; simpl; by rewrite ?Hc, ?Hall.
Qed.

(** The quantifier takes the prefix [pre] when the continuation succeeds
    there and fails after every longer prefix. *)
Lemma greedy_exact pre rest acc r :
  all_in cls pre = true →
  k (acc ++ pre) rest = Some r →
  (∀ pre' rest', pre' ≠ [] → all_in cls pre' = true → rest = pre' ++ rest' →
     k (acc ++ pre ++ pre') rest' = None) →
  greedy cls k acc (pre ++ rest) = Some r.
Proof.
  revert acc. induction pre as [|c pre IH]; intros acc Hall Hk Hfail; simpl.
  - rewrite app_nil_r in Hk. rewrite greedy_stop; [done|].
    intros pre' rest' Hne Hall' ->. by apply (Hfail pre' rest').
  - unfold all_in in Hall. simpl in Hall. apply andb_true_iff in Hall as [Hc Hall].
    rewrite Hc.
    rewrite (IH (acc ++ [c])); [done|done| |].
    + by rewrite <- app_assoc.
    + intros pre' rest' Hne Hall' ->. rewrite <- app_assoc. simpl.
      by apply (Hfail pre' rest').
Qed.

End Greedy.

(** Every match of the engine is in the denotation of the pattern. *)
Lemma exec_sound r cap s cap' : exec r cap s = Some cap' → accepts r cap s cap'.
Proof.
  revert cap s. induction r as [|[l|cls|cls] r IH]; intros cap s; simpl.
  - destruct s; [|done]. by intros [= ->].
  - destruct (strip_lit l s) as [rest|] eqn:Hl; [|done].
    intros H. exists rest. split; [by apply strip_lit_sound|by apply IH].
  - intros H. apply greedy_sound in H as (pre & rest & -> & Hall & Hk).
    exists pre, rest. split_and!; [done..|by apply IH].
  - destruct s as [|c s]; [done|]. destruct (cls c) eqn:Hc; [|done].
    intros H. apply greedy_sound in H as (pre & rest & -> & Hall & Hk).
    exists (c :: pre), rest. unfold all_in in *. simpl. rewrite Hc, Hall.
    split_and!; [done..|by apply IH].
Qed.

Lemma exec_lit l r cap rest : exec (Lit l :: r) cap (l ++ rest) = exec r cap rest.
Proof. simpl. by rewrite strip_lit_app. Qed.

(** A star before a literal that starts outside its class takes exactly the
    code units of the class. *)
Lemma exec_star_lit cls c l r cap pre rest res :
  cls c = false →
  all_in cls pre = true →
  exec (Lit (c :: l) :: r) cap ((c :: l) ++ rest) = Some res →
  exec (Star cls :: Lit (c :: l) :: r) cap (pre ++ (c :: l) ++ rest) = Some res.
Proof.
  intros Hc Hall Hk.
  change (greedy cls (fun _ rest0 => exec (Lit (c :: l) :: r) cap rest0) []
            (pre ++ ((c :: l) ++ rest)) = Some res).
  apply greedy_exact; [done|done|].
  intros [|c' pre'] rest' Hne Hall' Heq; [done|].
  unfold all_in in Hall'. simpl in Heq, Hall'. injection Heq as <- _.
  by rewrite Hc in Hall'.
Qed.

(** A star at the end of the pattern takes the rest of the string. *)
Lemma exec_star_end cls cap d :
  all_in cls d = true → exec [Star cls] cap d = Some cap.
Proof.
  intros Hall.
  change (greedy cls (fun _ rest => exec [] cap rest) [] d = Some cap).
  rewrite <- (app_nil_r d). apply greedy_exact; [done|done|].
  by intros [|c' pre'] rest' Hne Hall' Heq.
Qed.

(** The filters that the pattern of [query] matches are those of the shape
    [relativePath == "<value>"], and the group is the value. *)
Lemma relativePath_filter_shape filter value :
  match_group1 relativePath_filter filter = Some value ↔ filter_shape filter value.
Proof.
  split.
  - unfold match_group1.
    destruct (exec relativePath_filter None filter) as [[g|]|] eqn:Hexec; try done.
    intros [= ->]. apply exec_sound in Hexec. simpl in Hexec.
    destruct Hexec as (a & ? & -> & Ha & ? & -> & b & ? & -> & Hb & ? & -> &
                       c & ? & -> & Hc & ? & -> & v & ? & -> & Hne & Hv & ? & -> &
                       d & ? & -> & Hd & -> & [= ->]).
    exists a, b, c, d. rewrite app_nil_r. by split_and!.
  - intros (a & b & c & d & -> & Ha & Hb & Hc & Hd & Hv & Hne).
    unfold match_group1, relativePath_filter.
    assert (Htail : ∀ cap, exec [Lit dquote; Star is_space] cap (dquote ++ d) = Some cap).
    { intros cap. rewrite exec_lit. by apply exec_star_end. }
    assert (Hgroup : ∀ cap,
      exec [CapturePlus is_dot; Lit dquote; Star is_space] cap (value ++ dquote ++ d)
      = Some (Some value)).
    { intros cap. destruct value as [|x v]; [done|].
      unfold all_in in Hv. simpl in Hv. apply andb_true_iff in Hv as [Hx Hv].
      change (exec [CapturePlus is_dot; Lit dquote; Star is_space] cap
                (x :: (v ++ dquote ++ d)) = Some (Some (x :: v))).
      unfold exec at 1. rewrite Hx. fold exec.
      apply (greedy_exact is_dot _ v (dquote ++ d) [x]); [done|apply Htail|].
      intros [|q pre'] rest' Hne' Hall' Heq; [done|].
      injection Heq as <- ->.
      rewrite all_in_app in Hd. apply andb_true_iff in Hd as [_ Hd].
      destruct rest' as [|y rest']; [done|].
      unfold all_in in Hd. simpl in Hd. apply andb_true_iff in Hd as [Hy _].
      simpl. destruct (N.eqb_spec 34 y) as [<-|]; [by vm_compute in Hy|done]. }
    assert (H1 : units "relativePath" = 114%N :: units "elativePath") by reflexivity.
    assert (H2 : units "==" = 61%N :: units "=") by reflexivity.
    rewrite H1, H2.
    enough (exec [Star is_space; Lit (114%N :: units "elativePath"); Star is_space;
                  Lit (61%N :: units "="); Star is_space; Lit dquote; CapturePlus is_dot;
                  Lit dquote; Star is_space] None
              (a ++ (114%N :: units "elativePath") ++ b ++ (61%N :: units "=") ++ c ++
               dquote ++ value ++ dquote ++ d) = Some (Some value)) as -> by done.
    apply (exec_star_lit is_space 114%N (units "elativePath")); [done|done|].
    rewrite exec_lit.
    apply (exec_star_lit is_space 61%N (units "=")); [done|done|].
    rewrite exec_lit.
    apply (exec_star_lit is_space 34%N []); [done|done|].
    change [34%N] with dquote.
    rewrite exec_lit. apply Hgroup.
Qed.

End RegexFacts.

(** ** Running computations *)
Section EffFacts.
Context {S A B : Type}.
Implicit Types (m : M S A) (k : A → M S B).

Lemma bind_Ok m k s a s1 : m s = (Ok a, s1) → bind m k s = k a s1.
Proof. unfold bind. by intros ->. Qed.

Lemma bind_Throw m k s e s1 : m s = (Throw e, s1) → bind m k s = (Throw e, s1).
Proof. unfold bind. by intros ->. Qed.

Lemma bind_Ok_inv m k s b s' :
  bind m k s = (Ok b, s') → ∃ a s1, m s = (Ok a, s1) ∧ k a s1 = (Ok b, s').
Proof.
  unfold bind. destruct (m s) as [[a|e] s1]; [eauto | discriminate].
Qed.

Lemma try_catch_Ok (body : M S A) handler s a s1 :
  body s = (Ok a, s1) → try_catch body handler s = (Ok a, s1).
Proof. unfold try_catch. by intros ->. Qed.

Lemma try_catch_Throw (body : M S A) handler s e s1 :
  body s = (Throw e, s1) → try_catch body handler s = handler e s1.
Proof. unfold try_catch. by intros ->. Qed.

End EffFacts.

Lemma lift_run {T S A} (m : M S A) (t : T) s r s' :
  m s = (r, s') → lift m (t, s) = (r, (t, s')).
Proof. unfold lift. by intros ->. Qed.

(** A call into the backend leaves the adapter object alone. *)
Lemma lift_object {T S A} (m : M S A) (t : T) s :
  fst (snd (lift m (t, s))) = t.
Proof. unfold lift. by destruct (m s). Qed.

Lemma preserves_lift {T S A} (m : M S A) : preserves (T:=T) (lift m).
Proof. intros [t s]. apply lift_object. Qed.

Lemma preserves_ret {T S A} (a : A) : preserves (T:=T) (S:=S) (ret a).
Proof. by intros s. Qed.

Lemma preserves_throw {T S A} e : preserves (T:=T) (S:=S) (A:=A) (throw e).
Proof. by intros s. Qed.

Lemma preserves_this {T S} : preserves (T:=T) (S:=S) this.
Proof. by intros s. Qed.

Lemma preserves_inspect {T S A} (f : S → A) : preserves (T:=T) (inspect f).
Proof. by intros s. Qed.

Lemma preserves_bind {T S A B} (m : M (T * S) A) (k : A → M (T * S) B) :
  preserves m → (∀ a, preserves (k a)) → preserves (bind m k).
Proof.
  intros Hm Hk s. unfold bind. specialize (Hm s).
  destruct (m s) as [[a|e] s1]; simpl in *; [|done].
  by rewrite Hk.
Qed.

Lemma preserves_try_catch {T S A} (body : M (T * S) A) handler :
  preserves body → (∀ e, preserves (handler e)) → preserves (try_catch body handler).
Proof.
  intros Hb Hh s. unfold try_catch. specialize (Hb s).
  destruct (body s) as [[a|e] s1]; simpl in *; [done|].
  by rewrite Hh.
Qed.

Create HintDb preserves.
#[global] Hint Resolve preserves_lift preserves_ret preserves_throw preserves_this
  preserves_inspect : preserves.

Ltac preserves_step :=
  first
    [ solve [auto with preserves]
    | apply preserves_bind; [|intros ?]
    | apply preserves_try_catch; [|intros ?]
    | case_match ].

Ltac solve_preserves := repeat preserves_step.

(** ** The adapter over any backend *)
Section AdapterFacts.
Context {W : Type} (env : @Env W).
Implicit Types (o : @LanceVectorDatabase W) (w : W) (table : @Table W) (rows : list Row).

Lemma fromRow_score row score v :
  VectorSearchResult.score (fromRow env row score v)
  = match prop row "score" with JNum x => x | _ => score end.
Proof. reflexivity. Qed.

Lemma fromRow_vector row score v :
  VectorDocument.vector (VectorSearchResult.document (fromRow env row score v)) = v.
Proof. reflexivity. Qed.

Lemma fromRow_refers_to row score v :
  refers_to (VectorSearchResult.document (fromRow env row score v)) row.
Proof. by repeat split. Qed.

(** [search] is [openOrCreateTable] followed by a block that cannot throw. *)
Lemma search_after_open name q opts s table s1 :
  openOrCreateTable env name (Some []) s = (Ok table, s1) →
  ∃ rows s2,
    try_catch
      (let* arr := run_search table (SearchVector q)
                     (default 10%Z (opts ≫= SearchOptions.topK)) in
       ret (array_or_empty arr))
      (fun _ => ret []) s1 = (Ok rows, s2) ∧
    search env name q opts s = (Ok ((fun r => fromRow env r 0 q) <$> rows), s2).
Proof.
  intros Hopen. unfold search. rewrite (bind_Ok _ _ _ _ _ Hopen).
  set (block := try_catch _ _).
  destruct (block s1) as [[rows|e] s2] eqn:Hblock.
  - exists rows, s2. split; [done|]. by rewrite (bind_Ok _ _ _ _ _ Hblock).
  - exfalso. subst block. unfold try_catch, bind in Hblock.
    destruct (run_search _ _ _ s1) as [[arr|e'] s3]; discriminate.
Qed.

Lemma search_Ok_inv name q opts s results :
  fst (search env name q opts s) = Ok results →
  ∃ rows, results = (fun r => fromRow env r 0 q) <$> rows.
Proof.
  destruct (openOrCreateTable env name (Some []) s) as [[table|e] s1] eqn:Hopen.
  - destruct (search_after_open name q opts s table s1 Hopen) as (rows & s2 & _ & ->).
    simpl. intros [= <-]. eauto.
  - unfold search. rewrite (bind_Throw _ _ _ _ _ Hopen). discriminate.
Qed.


Lemma search_open_throws name q opts s e s1 :
  openOrCreateTable env name (Some []) s = (Throw e, s1) →
  search env name q opts s = (Throw e, s1).
Proof. intros H. unfold search. by rewrite (bind_Throw _ _ _ _ _ H). Qed.

Lemma search_delivers name q opts s table s1 rows s2 :
  openOrCreateTable env name (Some []) s = (Ok table, s1) →
  run_search table (SearchVector q) (default 10%Z (opts ≫= SearchOptions.topK)) s1
    = (Ok (IsArray rows), s2) →
  search env name q opts s = (Ok ((fun r => fromRow env r 0 q) <$> rows), s2).
Proof.
  intros Hopen Hrun. unfold search. rewrite (bind_Ok _ _ _ _ _ Hopen).
  unfold bind at 1, try_catch. by rewrite (bind_Ok _ _ _ _ _ Hrun).
Qed.

Lemma search_swallows name q opts s table s1 e s2 :
  openOrCreateTable env name (Some []) s = (Ok table, s1) →
  run_search table (SearchVector q) (default 10%Z (opts ≫= SearchOptions.topK)) s1
    = (Throw e, s2) →
  search env name q opts s = (Ok [], s2).
Proof.
  intros Hopen Hrun. unfold search. rewrite (bind_Ok _ _ _ _ _ Hopen).
  unfold bind at 1, try_catch. by rewrite (bind_Throw _ _ _ _ _ Hrun).
Qed.

(** The call chains never assign a field of the adapter. *)
Lemma call_search_preserves table arg : preserves (call_search table arg).
Proof. unfold call_search. solve_preserves. Qed.

Lemma run_search_preserves table arg k : preserves (run_search table arg k).
Proof. unfold run_search. pose proof call_search_preserves. solve_preserves. Qed.

Lemma variantB_preserves table v t k : preserves (variantB table v t k).
Proof. unfold variantB. pose proof call_search_preserves. solve_preserves. Qed.

Lemma try_variants_preserves table v t k : preserves (try_variants table v t k).
Proof.
  unfold try_variants, variantA, variantC.
  pose proof run_search_preserves. pose proof variantB_preserves. solve_preserves.
Qed.

Lemma try_variants_A table v t k s arr s1 :
  variantA table v t k s = (Ok arr, s1) →
  try_variants table v t k s = (Ok arr, s1).
Proof. apply try_catch_Ok. Qed.

Lemma try_variants_B table v t k s eA sA arr s1 :
  variantA table v t k s = (Throw eA, sA) →
  variantB table v t k sA = (Ok arr, s1) →
  try_variants table v t k s = (Ok arr, s1).
Proof.
  intros HA HB. unfold try_variants. rewrite (try_catch_Throw _ _ _ _ _ HA).
  by apply try_catch_Ok.
Qed.

Lemma try_variants_C table v t k s eA sA eB sB :
  variantA table v t k s = (Throw eA, sA) →
  variantB table v t k sA = (Throw eB, sB) →
  try_variants table v t k s = variantC table v k sB.
Proof.
  intros HA HB. unfold try_variants. rewrite (try_catch_Throw _ _ _ _ _ HA).
  by rewrite (try_catch_Throw _ _ _ _ _ HB).
Qed.

Lemma hybridSearch_open_throws name reqs hopts s e s1 :
  openOrCreateTable env name (Some []) s = (Throw e, s1) →
  hybridSearch env name reqs hopts s = (Throw e, s1).
Proof. intros H. unfold hybridSearch. by rewrite (bind_Throw _ _ _ _ _ H). Qed.

Lemma hybridSearch_delivers name reqs hopts s table s1 arr s2 :
  openOrCreateTable env name (Some []) s = (Ok table, s1) →
  is_Some (t_search table) →
  try_variants table (hybrid_vector reqs) (hybrid_text reqs) (hybrid_topK reqs hopts) s1
    = (Ok arr, s2) →
  hybridSearch env name reqs hopts s
    = (Ok (hybrid_result env (hybrid_vector reqs) <$> array_or_empty arr), s2).
Proof.
  intros Hopen [f Hf] Hrun. unfold hybridSearch. rewrite (bind_Ok _ _ _ _ _ Hopen).
  rewrite Hf. unfold bind at 1, try_catch. by rewrite (bind_Ok _ _ _ _ _ Hrun).
Qed.

Lemma hybridSearch_Ok_inv name reqs hopts s results :
  fst (hybridSearch env name reqs hopts s) = Ok results →
  (∃ rows, results = hybrid_result env (hybrid_vector reqs) <$> rows) ∨
  (∃ rows, results =
     (fun r => {| HybridSearchResult.document := VectorSearchResult.document r;
                  HybridSearchResult.score := VectorSearchResult.score r |})
       <$> ((fun r => fromRow env r 0 (hybrid_vector reqs)) <$> rows)).
Proof.
  unfold hybridSearch.
  destruct (openOrCreateTable env name (Some []) s) as [[table|e] s1] eqn:Hopen.
  2:{ rewrite (bind_Throw _ _ _ _ _ Hopen). discriminate. }
  rewrite (bind_Ok _ _ _ _ _ Hopen).
  set (outcome := try_catch _ _).
  destruct (outcome s1) as [[[rows|dense]|e] s2] eqn:Hout.
  - rewrite (bind_Ok _ _ _ _ _ Hout). simpl. intros [= <-]. left. eauto.
  - rewrite (bind_Ok _ _ _ _ _ Hout). simpl. intros [= <-]. right.
    subst outcome. unfold try_catch in Hout.
    assert (∃ s3 dense',
      search env name (hybrid_vector reqs)
        (Some (SearchOptions.mk (Some (hybrid_topK reqs hopts)))) s3 = (Ok dense', s2) ∧
      dense = (fun r => {| HybridSearchResult.document := VectorSearchResult.document r;
                           HybridSearchResult.score := VectorSearchResult.score r |})
                <$> dense') as (s3 & dense' & Hsearch & ->).
    { destruct (t_search table) as [f|].
      - unfold bind at 1 in Hout.
        destruct (try_variants table _ _ _ s1) as [[arr|e] s3]; [discriminate|].
        apply bind_Ok_inv in Hout as (dense' & s4 & Hsearch & [= <- <-]). eauto.
      - discriminate. }
    destruct (search_Ok_inv name (hybrid_vector reqs)
                (Some (SearchOptions.mk (Some (hybrid_topK reqs hopts)))) s3 dense')
      as [rows ->]; [by rewrite Hsearch|].
    eauto.
  - rewrite (bind_Throw _ _ _ _ _ Hout). discriminate.
Qed.

(** *** Failures before the table is at hand *)

Lemma ensureClient_connected o w :
  is_Some (db o) → ensureClient env (o, w) = (Ok tt, (o, w)).
Proof. intros [d Hd]. unfold ensureClient, bind, this. simpl. by rewrite Hd. Qed.

Lemma ensureClient_import_fails o w e w' :
  db o = None → lancedb o = None →
  import_lancedb env w = (Throw e, w') →
  ensureClient env (o, w)
  = (Throw (Error "Failed to load @lancedb/lancedb. Ensure it is installed."),
     (set_lancedb None o, w')).
Proof.
  intros Hdb Hmod Himp. unfold ensureClient, bind at 1. simpl.
  rewrite Hdb, Hmod. unfold bind, try_catch. simpl. by rewrite Himp.
Qed.

Lemma openOrCreateTable_ensure_throws name init s e s1 :
  ensureClient env s = (Throw e, s1) →
  openOrCreateTable env name init s = (Throw e, s1).
Proof. intros H. unfold openOrCreateTable. by rewrite (bind_Throw _ _ _ _ _ H). Qed.

Lemma query_open_throws name filter fields limit s e s1 :
  openOrCreateTable env name (Some []) s = (Throw e, s1) →
  query env name filter fields limit s = (Throw e, s1).
Proof. intros H. unfold query. by rewrite (bind_Throw _ _ _ _ _ H). Qed.

Lemma delete_open_throws name id ids s e s1 :
  openOrCreateTable env name (Some []) s = (Throw e, s1) →
  delete env name (id :: ids) s = (Throw e, s1).
Proof. intros H. unfold delete. by rewrite (bind_Throw _ _ _ _ _ H). Qed.

Lemma createCollection_open_throws name dim desc s e s1 :
  openOrCreateTable env name (Some []) s = (Throw e, s1) →
  createCollection env name dim desc s = (Throw e, s1).
Proof. intros H. unfold createCollection. by rewrite (bind_Throw _ _ _ _ _ H). Qed.

Lemma createHybridCollection_open_throws name dim desc s e s1 :
  openOrCreateTable env name (Some []) s = (Throw e, s1) →
  createHybridCollection env name dim desc s = (Throw e, s1).
Proof. intros H. unfold createHybridCollection. by rewrite (bind_Throw _ _ _ _ _ H). Qed.

Lemma query_swallows name filter fields limit s table s1 e s2 :
  openOrCreateTable env name (Some []) s = (Ok table, s1) →
  run_search table SearchAll (default 16384%Z limit) s1 = (Throw e, s2) →
  query env name filter fields limit s = (Ok [], s2).
Proof.
  intros Hopen Hrun. unfold query. rewrite (bind_Ok _ _ _ _ _ Hopen).
  unfold bind at 1. rewrite (try_catch_Throw _ _ _ _ _ Hrun). simpl.
  assert (Hnil : ∀ k, slice0 k (@nil Row) = []) by (intros; apply take_nil).
  destruct filter; [|destruct (match_group1 _ _)]; by rewrite Hnil.
Qed.

(** *** The claims on [search], [hybridSearch] and [fromRow] *)

Lemma search_Throw_inv name q opts s e s' :
  search env name q opts s = (Throw e, s') →
  openOrCreateTable env name (Some []) s = (Throw e, s').
Proof.
  destruct (openOrCreateTable env name (Some []) s) as [[table|e0] s1] eqn:Hopen.
  - destruct (search_after_open name q opts s table s1 Hopen) as (rows & s2 & _ & ->).
    by intros [=].
  - rewrite (search_open_throws _ _ _ _ _ _ Hopen). by intros [= -> ->].
Qed.

(** [hybridSearch] throws nothing of its own: an exception of it is one
    that [openOrCreateTable] threw, on the way in or in the last resort. *)
Lemma hybridSearch_Throw_inv name reqs hopts s e s' :
  hybridSearch env name reqs hopts s = (Throw e, s') →
  ∃ s0, openOrCreateTable env name (Some []) s0 = (Throw e, s').
Proof.
  unfold hybridSearch.
  destruct (openOrCreateTable env name (Some []) s) as [[table|e0] s1] eqn:Hopen.
  2:{ rewrite (bind_Throw _ _ _ _ _ Hopen). intros [= <- <-]. eauto. }
  rewrite (bind_Ok _ _ _ _ _ Hopen).
  set (body := match t_search table with Some _ => _ | None => _ end).
  unfold bind at 1, try_catch.
  destruct (body s1) as [[[rows|dense]|e1] sX] eqn:Hbody; [done..|].
  unfold bind at 1.
  destruct (search env name (hybrid_vector reqs) _ sX) as [[dense|e2] sY] eqn:Hsearch.
  - done.
  - intros [= <- <-]. apply search_Throw_inv in Hsearch. eauto.
Qed.

Lemma query_vector_hybrid_vector reqs v : query_vector reqs v → hybrid_vector reqs = v.
Proof. induction 1 as [v limit reqs|t limit reqs v _ IH]; [done|exact IH]. Qed.

Lemma text_only_hybrid_vector reqs : text_only reqs → hybrid_vector reqs = [].
Proof.
  unfold hybrid_vector. induction 1 as [|r reqs [t Ht] _ IH]; [done|].
  simpl. unfold is_vector. by rewrite Ht.
Qed.

(** C10. Every result of [search] carries the caller's query vector as its
    document's [vector], and every result of [hybridSearch] carries the
    vector of the caller's first dense request (the empty vector when no
    request is dense); there is one such result for every row that the
    backend delivers, whatever the [vector] column of the row holds. *)
Theorem C10_result_vector_is_the_query_vector name q opts reqs hopts s :
  (∀ results, fst (search env name q opts s) = Ok results →
     Forall (fun r => VectorDocument.vector (VectorSearchResult.document r) = q) results) ∧
  (∀ v results, query_vector reqs v →
     fst (hybridSearch env name reqs hopts s) = Ok results →
     Forall (fun r => VectorDocument.vector (HybridSearchResult.document r) = v) results) ∧
  (∀ results, text_only reqs →
     fst (hybridSearch env name reqs hopts s) = Ok results →
     Forall (fun r => VectorDocument.vector (HybridSearchResult.document r) = []) results) ∧
  (∀ table s1 rows s2,
     openOrCreateTable env name (Some []) s = (Ok table, s1) →
     run_search table (SearchVector q) (default 10%Z (opts ≫= SearchOptions.topK)) s1
       = (Ok (IsArray rows), s2) →
     ∃ results,
       search env name q opts s = (Ok results, s2) ∧
       Forall2 (fun res row =>
                  VectorDocument.id (VectorSearchResult.document res) = prop row "id" ∧
                  VectorDocument.vector (VectorSearchResult.document res) = q)
         results rows) ∧
  (∀ v table s1 rows s2,
     query_vector reqs v →
     openOrCreateTable env name (Some []) s = (Ok table, s1) →
     is_Some (t_search table) →
     try_variants table v (hybrid_text reqs) (hybrid_topK reqs hopts) s1
       = (Ok (IsArray rows), s2) →
     ∃ results,
       hybridSearch env name reqs hopts s = (Ok results, s2) ∧
       Forall2 (fun res row =>
                  VectorDocument.id (HybridSearchResult.document res) = prop row "id" ∧
                  VectorDocument.vector (HybridSearchResult.document res) = v)
         results rows).
Proof.
  assert (Hhybrid : ∀ v results, hybrid_vector reqs = v →
    fst (hybridSearch env name reqs hopts s) = Ok results →
    Forall (fun r => VectorDocument.vector (HybridSearchResult.document r) = v) results).
  { intros v results <- Hrun.
    apply hybridSearch_Ok_inv in Hrun as [[rows ->]|[rows ->]].
    - by apply Forall_fmap, Forall_true.
    - by apply Forall_fmap, Forall_fmap, Forall_true. }
  split_and!.
  - intros results Hrun. apply search_Ok_inv in Hrun as [rows ->].
    by apply Forall_fmap, Forall_true.
  - intros v results Hv. by apply Hhybrid, query_vector_hybrid_vector.
  - intros results Htext. by apply Hhybrid, text_only_hybrid_vector.
  - intros table s1 rows s2 Hopen Hrun. eexists. split; [by eapply search_delivers|].
    by apply Forall2_fmap_l, Forall_Forall2_diag, Forall_true.
  - intros v table s1 rows s2 Hv Hopen Hf Hrun.
    apply query_vector_hybrid_vector in Hv. subst v.
    eexists. split; [by eapply hybridSearch_delivers|].
    by apply Forall2_fmap_l, Forall_Forall2_diag, Forall_true.
Qed.

(** C9. A row whose [metadata] makes [JSON.parse] throw is converted to a
    result with the empty object as metadata.  When the backend delivers
    such a row, [search] and [hybridSearch] return normally, with one result
    per delivered row, the one of that row with empty metadata.  Neither
    method throws because of a row: [search] returns normally once the table
    is at hand, and an exception of either is one of [openOrCreateTable]. *)
Theorem C9_malformed_metadata_reads_as_empty row e :
  JSON_parse env (prop row "metadata") = Throw e →
  (∀ score v,
     VectorDocument.metadata (VectorSearchResult.document (fromRow env row score v))
     = JObj ∅) ∧
  (∀ name q opts s table s1 rows s2,
     openOrCreateTable env name (Some []) s = (Ok table, s1) →
     run_search table (SearchVector q) (default 10%Z (opts ≫= SearchOptions.topK)) s1
       = (Ok (IsArray rows), s2) →
     row ∈ rows →
     ∃ results,
       search env name q opts s = (Ok results, s2) ∧
       length results = length rows ∧
       ∃ res, res ∈ results ∧
              refers_to (VectorSearchResult.document res) row ∧
              VectorDocument.metadata (VectorSearchResult.document res) = JObj ∅) ∧
  (∀ name reqs hopts s table s1 rows s2,
     openOrCreateTable env name (Some []) s = (Ok table, s1) →
     is_Some (t_search table) →
     try_variants table (hybrid_vector reqs) (hybrid_text reqs) (hybrid_topK reqs hopts) s1
       = (Ok (IsArray rows), s2) →
     row ∈ rows →
     ∃ results,
       hybridSearch env name reqs hopts s = (Ok results, s2) ∧
       length results = length rows ∧
       ∃ res, res ∈ results ∧
              refers_to (HybridSearchResult.document res) row ∧
              VectorDocument.metadata (HybridSearchResult.document res) = JObj ∅) ∧
  (∀ name q opts s table s1,
     openOrCreateTable env name (Some []) s = (Ok table, s1) →
     ∃ results s2, search env name q opts s = (Ok results, s2)) ∧
  (∀ name q opts s e' s',
     search env name q opts s = (Throw e', s') →
     openOrCreateTable env name (Some []) s = (Throw e', s')) ∧
  (∀ name reqs hopts s e' s',
     hybridSearch env name reqs hopts s = (Throw e', s') →
     ∃ s0, openOrCreateTable env name (Some []) s0 = (Throw e', s')).
Proof.
  intros Hparse.
  assert (Hmeta : ∀ score v,
    VectorDocument.metadata (VectorSearchResult.document (fromRow env row score v))
    = JObj ∅).
  { intros score v. unfold fromRow. simpl. rewrite Hparse. by destruct (truthy _). }
  split_and!.
  - exact Hmeta.
  - intros name q opts s table s1 rows s2 Hopen Hrun Hin. eexists. split_and!.
    + by eapply search_delivers.
    + by rewrite length_fmap.
    + exists (fromRow env row 0 q). split_and!.
      * apply list_elem_of_fmap. by exists row.
      * apply fromRow_refers_to.
      * apply Hmeta.
  - intros name reqs hopts s table s1 rows s2 Hopen Hf Hrun Hin. eexists. split_and!.
    + by eapply hybridSearch_delivers.
    + by rewrite length_fmap.
    + exists (hybrid_result env (hybrid_vector reqs) row). split_and!.
      * apply list_elem_of_fmap. by exists row.
      * by repeat split.
      * apply Hmeta.
  - intros name q opts s table s1 Hopen.
    destruct (search_after_open name q opts s table s1 Hopen) as (rows & s2 & _ & ->).
    eauto.
  - intros name q opts s e' s' Hrun. by apply (search_Throw_inv name q opts).
  - intros name reqs hopts s e' s' Hrun. by apply (hybridSearch_Throw_inv name reqs hopts s).
Qed.

(** C1, as the code has it. [search] returns one result per row that the
    backend delivers, in the backend's order, and so does [hybridSearch] for
    the rows of whichever call shape delivered; each score is the row's
    [score] property when that is a number and 0 otherwise.  Nothing is
    normalized and nothing is sorted. *)
Theorem C1_scores_are_the_rows_scores name q opts reqs hopts s table s1 :
  openOrCreateTable env name (Some []) s = (Ok table, s1) →
  (∀ rows s2,
     run_search table (SearchVector q) (default 10%Z (opts ≫= SearchOptions.topK)) s1
       = (Ok (IsArray rows), s2) →
     ∃ results,
       search env name q opts s = (Ok results, s2) ∧
       VectorSearchResult.score <$> results = row_score <$> rows) ∧
  (∀ rows s2,
     try_variants table (hybrid_vector reqs) (hybrid_text reqs) (hybrid_topK reqs hopts) s1
       = (Ok (IsArray rows), s2) →
     is_Some (t_search table) →
     ∃ results,
       hybridSearch env name reqs hopts s = (Ok results, s2) ∧
       HybridSearchResult.score <$> results = row_score <$> rows).
Proof.
  intros Hopen. split.
  - intros rows s2 Hrun. eexists. split; [by eapply search_delivers|].
    rewrite <- list_fmap_compose. by apply list_fmap_ext.
  - intros rows s2 Hrun Hf. eexists. split; [by eapply hybridSearch_delivers|].
    simpl. rewrite <- list_fmap_compose. by apply list_fmap_ext.
Qed.

Lemma asks_for_default opts k : asks_for opts k → default 10%Z (opts ≫= SearchOptions.topK) = k.
Proof. destruct opts as [[[k'|]]|]; simpl; by intros ->. Qed.



(** *** The claims on [hybridSearch] fallback and [createHybridCollection] *)

Lemma try_catch_ignore {S} (body : M S unit) s :
  try_catch body (fun _ => ret tt) s = (Ok tt, snd (body s)).
Proof. unfold try_catch. by destruct (body s) as [[[]|e] s1]. Qed.

Lemma the_lancedb_preserves : preserves (the_lancedb (W:=W)).
Proof. unfold the_lancedb. solve_preserves. Qed.

Lemma fts_preserves : preserves (fts (W:=W)).
Proof. unfold fts. pose proof the_lancedb_preserves. solve_preserves. Qed.

(** C2, as the code has it. When both fused call shapes throw,
    [hybridSearch] returns the rows of the dense-only call in the result
    shape: the document fields are the row's and the score is the row's
    score.  That the fallback ran is recorded nowhere: the adapter object is
    the one [openOrCreateTable] left. *)
Theorem C2_fallback_is_dense_only_and_unrecorded name reqs hopts s table o1 w1
    eA sA eB sB rows s2 :
  let v := hybrid_vector reqs in
  let t := hybrid_text reqs in
  let k := hybrid_topK reqs hopts in
  openOrCreateTable env name (Some []) s = (Ok table, (o1, w1)) →
  variantA table v t k (o1, w1) = (Throw eA, sA) →
  variantB table v t k sA = (Throw eB, sB) →
  variantC table v k sB = (Ok (IsArray rows), s2) →
  ∃ results,
    hybridSearch env name reqs hopts s = (Ok results, s2) ∧
    fst s2 = o1 ∧
    Forall2 (fun res row =>
               refers_to (HybridSearchResult.document res) row ∧
               VectorDocument.id (HybridSearchResult.document res) = prop row "id" ∧
               HybridSearchResult.score res = row_score row) results rows.
Proof.
  intros v t k Hopen HA HB HC.
  assert (Hcascade : try_variants table v t k (o1, w1) = (Ok (IsArray rows), s2)).
  { by rewrite (try_variants_C _ _ _ _ _ _ _ _ _ HA HB). }
  assert (Hf : is_Some (t_search table)).
  { unfold variantC, run_search, call_search in HC.
    destruct (t_search table); [done|]. unfold bind, throw in HC. discriminate. }
  exists (hybrid_result env v <$> rows). split_and!.
  - by rewrite (hybridSearch_delivers _ _ _ _ _ _ _ _ Hopen Hf Hcascade).
  - pose proof (try_variants_preserves table v t k (o1, w1)) as Hpres.
    by rewrite Hcascade in Hpres.
  - apply Forall2_fmap_l, Forall_Forall2_diag, Forall_true.
    intros row. by repeat split.
Qed.


(** *** The claim on [query] *)

Lemma slice0_up_to {A} (max : Z) (l : list A) : slice0 max l = up_to max l.
Proof.
  unfold slice0, up_to. destruct (Z.ltb_spec max 0); [f_equal; lia|].
  destruct (Z.le_ge_cases max (Z.of_nat (length l))).
  - by rewrite Z.min_l.
  - rewrite Z.min_r, Nat2Z.id by lia. rewrite !take_ge; [done|lia|lia].
Qed.

Lemma project_projected fields (r : Row) : projected fields r (project fields r).
Proof.
  intros f. unfold project.
  assert (Hgen : ∀ acc : Row,
    foldl (fun out g => set_prop out g (get_prop r g)) acc fields !! f
    = if bool_decide (f ∈ fields ∧ f ≠ "__proto__") then Some (get_prop r f)
      else acc !! f).
  { induction fields as [|g fields IH]; intros acc.
    - case_bool_decide as Hin; [|done]. destruct Hin as [Hin _]. by apply elem_of_nil in Hin.
    - simpl. rewrite IH. unfold set_prop.
      destruct (decide (f ∈ fields ∧ f ≠ "__proto__")) as [[Hin Hne]|Hout].
      + rewrite !bool_decide_eq_true_2; [done|split; [by right|done]|done].
      + rewrite (bool_decide_eq_false_2 _ Hout).
        destruct (decide (f = g)) as [->|Hfg].
        * destruct (decide (g = "__proto__")) as [Hp|Hp].
          -- rewrite (bool_decide_eq_true_2 _ Hp).
             rewrite bool_decide_eq_false_2; [done|]. by intros [_ ?].
          -- rewrite (bool_decide_eq_false_2 _ Hp), lookup_insert_eq.
             rewrite bool_decide_eq_true_2; [done|]. split; [by left|done].
        * rewrite (bool_decide_eq_false_2 (f ∈ g :: fields ∧ _)).
          -- destruct (bool_decide (g = "__proto__")); [done|]. by rewrite lookup_insert_ne.
          -- intros [[->|Hin]%elem_of_cons Hne]; [done|]. by apply Hout. }
  rewrite Hgen, lookup_empty. case_bool_decide as Hf; [|done].
  destruct Hf as [_ Hne]. unfold get_prop. destruct (r !! f); [done|].
  case_bool_decide; [done|]. by rewrite bool_decide_eq_false_2.
Qed.


End AdapterFacts.


(** ** The adapter over the in-memory backend *)
Section MemFacts.
Import Mem.
Context (p : Profile) (parse : jsval → result jsval) (stringify : jsval → jsval).
Context (root : string).
Implicit Types (o : @LanceVectorDatabase World) (w : World) (rows : list Row).

Local Abbreviation env := (mem_env p parse stringify).

Local Arguments Z.to_nat : simpl never.

Ltac mem_step :=
  unfold holds in *;
  repeat (progress (unfold bind, try_catch, lift, ret, throw, this, inspect, log, rows_at,
                      set_dirs, add_index, has_index; simpl)).

Lemma mem_open_existing name init o w rows :
  db o = Some (mem_db p root) →
  holds w root name rows →
  openOrCreateTable env name init (o, w)
  = (Ok (mem_table p (join root name)), (o, logged [CallOpenTable name] w)).
Proof.
  intros Hdb Hrows. unfold openOrCreateTable.
  rewrite (bind_Ok _ _ _ _ _ (ensureClient_connected _ _ _ (mk_is_Some _ _ Hdb))).
  unfold the_db. mem_step. rewrite Hdb. mem_step. by rewrite Hrows.
Qed.

(** A collection that is missing is created from the initial rows, when
    there are some. *)
Lemma mem_open_missing name rows o w :
  db o = Some (mem_db p root) →
  dirs w !! join root name = None →
  rows ≠ [] →
  openOrCreateTable env name (Some rows) (o, w)
  = (Ok (mem_table p (join root name)),
     (o, {| dirs := <[join root name := rows]> (dirs w);
            indexes := indexes w;
            calls := CallCreateTable name rows :: CallOpenTable name :: calls w |})).
Proof.
  intros Hdb Hnone Hrows. destruct rows as [|r rows]; [done|]. unfold openOrCreateTable.
  rewrite (bind_Ok _ _ _ _ _ (ensureClient_connected _ _ _ (mk_is_Some _ _ Hdb))).
  unfold the_db. mem_step. rewrite Hdb. mem_step. rewrite Hnone. mem_step.
  rewrite Hdb. mem_step. by rewrite Hnone.
Qed.

(** Without initial rows the backend refuses to create it. *)
Lemma mem_open_missing_empty name o w :
  db o = Some (mem_db p root) →
  dirs w !! join root name = None →
  openOrCreateTable env name (Some []) (o, w)
  = (Throw (Error "At least one record or a schema needs to be provided"),
     (o, logged [CallCreateTable name []; CallOpenTable name] w)).
Proof.
  intros Hdb Hnone. unfold openOrCreateTable.
  rewrite (bind_Ok _ _ _ _ _ (ensureClient_connected _ _ _ (mk_is_Some _ _ Hdb))).
  unfold the_db. mem_step. rewrite Hdb. mem_step. rewrite Hnone. mem_step.
  by rewrite Hdb.
Qed.

(** A search without a query is refused. *)
Lemma mem_scan_throws dir k o w :
  run_search (mem_table p dir) SearchAll k (o, w)
  = (Throw (TypeError "search needs a query vector or text"),
     (o, logged [CallSearch SearchAll] w)).
Proof. unfold run_search, call_search. by mem_step. Qed.

Lemma mem_dropCollection name o w rows :
  db o = Some (mem_db p root) →
  dbPath (config o) = root →
  holds w root name rows →
  dropCollection env name (o, w)
  = (Ok tt,
     (o, {| dirs := base.delete (join root name) (dirs w);
            indexes := indexes w;
            calls := (if p_dropTable p then [CallDropTable name] else []) ++ calls w |})).
Proof.
  intros Hdb Hroot Hrows. unfold dropCollection.
  rewrite (bind_Ok _ _ _ _ _ (ensureClient_connected _ _ _ (mk_is_Some _ _ Hdb))).
  unfold getTablePath. mem_step. rewrite Hdb. mem_step.
  destruct (p_dropTable p); mem_step.
  - by rewrite Hrows.
  - rewrite Hroot, Hrows. rewrite bool_decide_eq_true_2 by eauto. by destruct w.
Qed.

Lemma quiet_refl w : quiet w w.
Proof. done. Qed.

Lemma quiet_trans w1 w2 w3 : quiet w1 w2 → quiet w2 w3 → quiet w1 w3.
Proof. unfold quiet. intros (-> & ->) (-> & ->). done. Qed.

Lemma mem_run_search_vector dir v k o w rows :
  dirs w !! dir = Some rows →
  run_search (mem_table p dir) (SearchVector v) k (o, w)
  = (if p_accepts p v then Ok (IsArray (take (Z.to_nat k) (p_rank p v rows)))
     else Throw (Error "query vector has the wrong dimension"),
     (o, logged [CallSearch (SearchVector v)] w)).
Proof.
  intros Hrows. unfold run_search, call_search. mem_step.
  destruct (p_accepts p v); mem_step; by rewrite ?Hrows.
Qed.

Lemma mem_variantA_unsupported dir v t k o w :
  p_object_search p = false →
  variantA (mem_table p dir) v t k (o, w)
  = (Throw (Error "unsupported query"),
     (o, logged [CallSearch (SearchObject v t "hybrid")] w)).
Proof.
  intros Hobj. unfold variantA, run_search, call_search. mem_step. by rewrite Hobj.
Qed.

Lemma mem_variantB_quiet dir v t k o w rows :
  dirs w !! dir = Some rows →
  ∃ r w', variantB (mem_table p dir) v t k (o, w) = (r, (o, w')) ∧ quiet w w'.
Proof.
  intros Hrows. unfold variantB, call_search. mem_step.
  destruct (p_accepts p v); mem_step; [|by eexists _, _].
  destruct (p_chain p); mem_step; try by eexists _, _.
  destruct (bool_decide _); mem_step; rewrite ?Hrows; by eexists _, _.
Qed.

Lemma mem_search_quiet name q opts o w rows :
  db o = Some (mem_db p root) →
  holds w root name rows →
  ∃ results w', search env name q opts (o, w) = (Ok results, (o, w')) ∧ quiet w w'.
Proof.
  intros Hdb Hrows.
  pose proof (mem_open_existing name (Some []) o w rows Hdb Hrows) as Hopen.
  set (k := default 10%Z (opts ≫= SearchOptions.topK)).
  pose proof (mem_run_search_vector (join root name) q k o
                (logged [CallOpenTable name] w) rows Hrows) as Hrun.
  destruct (p_accepts p q).
  - rewrite (search_delivers _ _ _ _ _ _ _ _ _ Hopen Hrun). by eexists _, _.
  - rewrite (search_swallows _ _ _ _ _ _ _ _ _ Hopen Hrun). by eexists _, _.
Qed.

(** On the in-memory backend, whose [limit] is honoured by construction,
    [search] returns the first [topK] rows of the ranking. *)
Lemma mem_search name q opts o w rows :
  db o = Some (mem_db p root) →
  holds w root name rows →
  p_accepts p q = true →
  let k := default 10%Z (opts ≫= SearchOptions.topK) in
  search env name q opts (o, w)
  = (Ok ((fun r => fromRow env r 0 q) <$> take (Z.to_nat k) (p_rank p q rows)),
     (o, logged [CallSearch (SearchVector q); CallOpenTable name] w)).
Proof.
  intros Hdb Hrows Hacc k.
  pose proof (mem_open_existing name (Some []) o w rows Hdb Hrows) as Hopen.
  pose proof (mem_run_search_vector (join root name) q k o
                (logged [CallOpenTable name] w) rows Hrows) as Hrun.
  rewrite Hacc in Hrun.
  by rewrite (search_delivers _ _ _ _ _ _ _ _ _ Hopen Hrun).
Qed.

Lemma mem_search_at_most_topK name q opts o w rows results s' :
  db o = Some (mem_db p root) →
  holds w root name rows →
  search env name q opts (o, w) = (Ok results, s') →
  length results ≤ Z.to_nat (default 10%Z (opts ≫= SearchOptions.topK)).
Proof.
  intros Hdb Hrows Hrun.
  pose proof (mem_open_existing name (Some []) o w rows Hdb Hrows) as Hopen.
  pose proof (mem_run_search_vector (join root name) q
                (default 10%Z (opts ≫= SearchOptions.topK)) o
                (logged [CallOpenTable name] w) rows Hrows) as Hsearch.
  destruct (p_accepts p q).
  - rewrite (search_delivers _ _ _ _ _ _ _ _ _ Hopen Hsearch) in Hrun.
    injection Hrun as <- _. rewrite length_fmap, length_take. lia.
  - rewrite (search_swallows _ _ _ _ _ _ _ _ _ Hopen Hsearch) in Hrun.
    injection Hrun as <- _. simpl. lia.
Qed.

Lemma mem_hybridSearch_probes name reqs hopts o w rows :
  db o = Some (mem_db p root) →
  holds w root name rows →
  p_object_search p = false →
  ∃ results w',
    hybridSearch env name reqs hopts (o, w) = (Ok results, (o, w')) ∧
    dirs w' = dirs w ∧
    fused_probes (calls w') = S (fused_probes (calls w)).
Proof.
  intros Hdb Hrows Hobj. unfold hybridSearch.
  rewrite (bind_Ok _ _ _ _ _ (mem_open_existing _ (Some []) _ _ _ Hdb Hrows)).
  set (v := hybrid_vector reqs). set (t := hybrid_text reqs).
  set (k := hybrid_topK reqs hopts). set (dir := join root name).
  set (w1 := logged [CallOpenTable name] w).
  set (wA := logged [CallSearch (SearchObject v t "hybrid")] w1).
  destruct (mem_variantB_quiet dir v t k o wA rows Hrows) as (rB & wB & HB & HqB).
  assert (HrowsB : holds wB root name rows).
  { unfold holds. destruct HqB as (-> & _). done. }
  pose proof (mem_run_search_vector dir v k o wB rows HrowsB) as HC.
  assert (Hcascade : try_variants (mem_table p dir) v t k (o, w1)
                     = match rB with
                       | Ok arr => (Ok arr, (o, wB))
                       | Throw _ => variantC (mem_table p dir) v k (o, wB)
                       end).
  { unfold try_variants.
    rewrite (try_catch_Throw _ _ _ _ _ (mem_variantA_unsupported dir v t k o w1 Hobj)).
    unfold try_catch. fold wA. by rewrite HB; destruct rB. }
  simpl t_search. unfold bind at 1, try_catch at 1, bind at 1. rewrite Hcascade.
  assert (HprobeB : fused_probes (calls wB) = S (fused_probes (calls w))).
  { by destruct HqB as (_ & ->). }
  assert (HdirsB : dirs wB = dirs w) by (by destruct HqB as (-> & _)).
  destruct rB as [arr|eB].
  - simpl. eauto.
  - unfold variantC. rewrite HC. destruct (p_accepts p v).
    + simpl. eauto.
    + destruct (mem_search_quiet name v
                  (Some (SearchOptions.mk (Some k))) o
                  (logged [CallSearch (SearchVector v)] wB) rows Hdb HrowsB)
        as (dense & w' & Hsearch & Hq).
      unfold bind at 1. rewrite Hsearch. simpl.
      destruct Hq as (Hd & Hp). eexists _, w'. split; [done|].
      by rewrite Hd, Hp.
Qed.

Lemma mem_fts o w :
  lancedb o = Some (mem_module p) → fts (o, w) = (Ok (JStr "fts"), (o, w)).
Proof. intros Hmod. unfold fts, the_lancedb. mem_step. by rewrite Hmod. Qed.

Lemma mem_createIndex_quiet dir f column arg w rows :
  t_createIndex (mem_table p dir) = Some f →
  dirs w !! dir = Some rows →
  ∃ r w', f column arg w = (r, w') ∧ quiet w w'.
Proof.
  simpl. intros Hf Hrows. destruct (p_createIndex p) as [accepts|]; [|done].
  injection Hf as <-. mem_step. rewrite Hrows.
  destruct rows, (accepts arg); by eexists _, _.
Qed.

Lemma mem_createHybridCollection_quiet name dim desc o w rows :
  connected_to p root o →
  holds w root name rows →
  ∃ w', createHybridCollection env name dim desc (o, w) = (Ok tt, (o, w')) ∧
        dirs w' = dirs w ∧
        fused_probes (calls w') = fused_probes (calls w).
Proof.
  intros (Hdb & Hmod & _) Hrows.
  pose proof (mem_open_existing name (Some []) o w rows Hdb Hrows) as Hopen.
  unfold createHybridCollection.
  rewrite (bind_Ok _ _ _ _ _ Hopen), try_catch_ignore.
  set (dir := join root name). set (w1 := logged [CallOpenTable name] w).
  assert (Hrows1 : dirs w1 !! dir = Some rows) by done.
  assert (Hq1 : quiet w w1) by done.
  destruct (t_createIndex (mem_table p dir)) as [f|] eqn:Hf; [|by exists w1].
  unfold try_catch at 1. rewrite (bind_Ok _ _ _ _ _ (mem_fts o w1 Hmod)).
  destruct (mem_createIndex_quiet dir f "content" (IndexConfig (JStr "fts")) w1 rows Hf Hrows1)
    as (r1 & w2 & H1 & Hq2).
  rewrite (lift_run _ _ _ _ _ H1).
  pose proof (quiet_trans _ _ _ Hq1 Hq2) as Hq12.
  destruct r1 as [[]|e1]; [by exists w2|].
  assert (Hrows2 : dirs w2 !! dir = Some rows) by (destruct Hq2 as [-> _]; done).
  unfold try_catch at 1. rewrite (bind_Ok _ _ _ _ _ (mem_fts o w2 Hmod)).
  destruct (mem_createIndex_quiet dir f "content" (IndexBare (JStr "fts")) w2 rows Hf Hrows2)
    as (r2 & w3 & H2 & Hq3).
  rewrite (lift_run _ _ _ _ _ H2).
  pose proof (quiet_trans _ _ _ Hq12 Hq3) as Hq13.
  destruct r2 as [[]|e2]; [by exists w3|].
  assert (Hrows3 : dirs w3 !! dir = Some rows) by (destruct Hq3 as [-> _]; done).
  destruct (mem_createIndex_quiet dir f "content" (IndexType "fts") w3 rows Hf Hrows3)
    as (r3 & w4 & H3 & Hq4).
  rewrite (lift_run _ _ _ _ _ H3). exists w4. split; [done|].
  apply (quiet_trans _ _ _ Hq13 Hq4).
Qed.

Lemma mem_hybridSearch_times name reqs hopts n o w rows :
  db o = Some (mem_db p root) →
  holds w root name rows →
  p_object_search p = false →
  ∃ w', hybridSearch_times env name reqs hopts n (o, w) = (Ok tt, (o, w')) ∧
        fused_probes (calls w') = n + fused_probes (calls w).
Proof.
  intros Hdb Hrows Hobj. revert w Hrows.
  induction n as [|n IH]; intros w Hrows.
  - by exists w.
  - destruct (mem_hybridSearch_probes name reqs hopts o w rows Hdb Hrows Hobj)
      as (results & w1 & Hrun & Hdirs1 & Hprobes1).
    destruct (IH w1) as (w' & Hrest & Hprobes).
    { unfold holds. by rewrite Hdirs1. }
    exists w'. split; [|lia].
    simpl. by rewrite (bind_Ok _ _ _ _ _ Hrun).
Qed.


End MemFacts.

(** ** Concrete collections *)

Lemma sample_holds rows : holds (Sample.world rows) ".lancedb" "chunks" rows.
Proof. exact (lookup_singleton_eq (M:=gmap string) ".lancedb/chunks" rows). Qed.

Lemma sample_connected p : connected_to p ".lancedb" (Sample.connected p).
Proof. done. Qed.

Lemma chunk_id id path content v : prop (Sample.chunk id path content v []) "id" = JStr id.
Proof. reflexivity. Qed.

(** C3. A collection with the chunks [a], [b] and [c] on a LanceDB whose
    [delete] takes filter strings only and whose [search] needs a query:
    [delete(["a"])] tries the native delete with a function, falls back to
    the scan, and throws the error of the scan.  Nothing is dropped or
    rewritten: the chunk [a] is still there. *)
Theorem C3_delete_throws_and_removes_nothing :
  let run := delete Sample.env "chunks" ["a"]
               (Sample.connected Sample.lance, Sample.world Sample.rows3) in
  Forall2 (fun row id => prop row "id" = JStr id) Sample.rows3 ["a"; "b"; "c"] ∧
  fst run = Throw (TypeError "search needs a query vector or text") ∧
  Mem.calls (snd (snd run))
  = [Mem.CallSearch SearchAll; Mem.CallDelete; Mem.CallOpenTable "chunks"] ∧
  holds (snd (snd run)) ".lancedb" "chunks" Sample.rows3.
Proof.
  cbv zeta. split_and!.
  - by repeat constructor.
  - reflexivity.
  - reflexivity.
  - reflexivity.
Qed.

(** *** Where the claims fail *)

(** C1 fails: the backend delivers rows scored 0.25, 7.5 and unscored, and
    [search] hands the scores on: 7.5 is outside [0,1], and the list is not
    in descending order. *)
Lemma C1_counterexample :
  ∃ results,
    fst (search Sample.env "chunks" [1; 0]%float None
           (Sample.fresh, Sample.world Sample.rows3)) = Ok results ∧
    VectorSearchResult.score <$> results = [0.25; 7.5; 0]%float ∧
    ¬ score_contract (VectorSearchResult.score <$> results).
Proof.
  eexists. split; [vm_compute; reflexivity|]. split; [reflexivity|].
  intros [Hnorm _].
  apply Forall_cons in Hnorm as [_ Hnorm]. apply Forall_cons in Hnorm as [[_ Hle] _].
  vm_compute in Hle. discriminate.
Qed.

(** C2 fails: the same query against the same rows, once on a table with a
    full-text index (the fused call delivers) and once on a table without
    (the adapter falls back to the dense-only call).  The results and the
    adapter objects are equal, so nothing a caller can read tells the two
    apart. *)
Lemma C2_counterexample :
  let native := hybridSearch Sample.env "chunks" Sample.requests None
                  (Sample.connected Sample.lance, Sample.indexed_world Sample.rows3) in
  let fallback := hybridSearch Sample.env "chunks" Sample.requests None
                    (Sample.connected Sample.lance, Sample.world Sample.rows3) in
  Mem.calls (snd (snd native))
  = [Mem.CallSearch (SearchObject [1; 0]%float "alpha" "hybrid"); Mem.CallOpenTable "chunks"] ∧
  Mem.calls (snd (snd fallback))
  = [Mem.CallSearch (SearchVector [1; 0]%float); Mem.CallText "alpha";
     Mem.CallSearch (SearchVector [1; 0]%float);
     Mem.CallSearch (SearchObject [1; 0]%float "alpha" "hybrid");
     Mem.CallOpenTable "chunks"] ∧
  ∀ flag : result (list HybridSearchResult.t) → @LanceVectorDatabase Mem.World → bool,
    flag (fst native) (fst (snd native)) = flag (fst fallback) (fst (snd fallback)).
Proof.
  cbv zeta. split_and!; [vm_compute; reflexivity..|].
  intros flag. f_equal.
Qed.






(** Where the fused object call throws and the query builder has no [text]
    method, the optional chain of the second call shape evaluates to
    [undefined] without throwing: [hybridSearch] returns no result and the
    dense-only call is never made, although [search] finds three rows. *)
Lemma hybridSearch_without_text_method :
  fst (hybridSearch Sample.no_chain_env "chunks" Sample.requests None
         (Sample.connected Sample.no_chain, Sample.world Sample.rows3)) = Ok [] ∧
  Mem.calls (snd (snd (hybridSearch Sample.no_chain_env "chunks" Sample.requests None
                         (Sample.connected Sample.no_chain, Sample.world Sample.rows3))))
  = [Mem.CallSearch (SearchVector [1; 0]%float);
     Mem.CallSearch (SearchObject [1; 0]%float "alpha" "hybrid");
     Mem.CallOpenTable "chunks"] ∧
  match fst (search Sample.no_chain_env "chunks" [1; 0]%float None
               (Sample.connected Sample.no_chain, Sample.world Sample.rows3)) with
  | Ok results => length results = 3
  | Throw _ => False
  end.
Proof. split_and!; vm_compute; reflexivity. Qed.

(** *** The theorems at a concrete collection *)

Lemma sample_open p rows :
  openOrCreateTable (Mem.mem_env p Sample.parse Sample.stringify) "chunks" (Some [])
    (Sample.connected p, Sample.world rows)
  = (Ok (Sample.chunks_table p), (Sample.connected p, Sample.opened (Sample.world rows))).
Proof. reflexivity. Qed.

Lemma C1_witness :
  ∃ results s2,
    search Sample.env "chunks" [1; 0]%float None
      (Sample.connected Sample.lance, Sample.world Sample.rows3) = (Ok results, s2) ∧
    VectorSearchResult.score <$> results = [0.25; 7.5; 0]%float.
Proof.
  destruct (C1_scores_are_the_rows_scores Sample.env "chunks" [1; 0]%float None
              Sample.requests None _ _ _ (sample_open Sample.lance Sample.rows3))
    as [Hsearch _].
  destruct (Hsearch Sample.rows3
              (Sample.connected Sample.lance,
               Mem.logged [Mem.CallSearch (SearchVector [1; 0]%float)]
                 (Sample.opened (Sample.world Sample.rows3))))
    as (results & Hrun & Hscores); [reflexivity|].
  exists results. eexists. split; [exact Hrun|]. rewrite Hscores. reflexivity.
Defined.

Lemma C2_witness :
  ∃ results s2,
    hybridSearch Sample.plain_env "chunks" Sample.requests None
      (Sample.connected Sample.plain, Sample.world Sample.rows3) = (Ok results, s2) ∧
    fst s2 = Sample.connected Sample.plain ∧
    length results = 3.
Proof.
  destruct (C2_fallback_is_dense_only_and_unrecorded Sample.plain_env "chunks"
              Sample.requests None
              (Sample.connected Sample.plain, Sample.world Sample.rows3)
              (Sample.chunks_table Sample.plain)
              (Sample.connected Sample.plain) (Sample.opened (Sample.world Sample.rows3))
              (Error "unsupported query")
              (Sample.connected Sample.plain,
               Mem.logged [Mem.CallSearch (SearchObject [1; 0]%float "alpha" "hybrid")]
                 (Sample.opened (Sample.world Sample.rows3)))
              (Error "full-text search is not supported")
              (Sample.connected Sample.plain,
               Mem.logged [Mem.CallText "alpha"; Mem.CallSearch (SearchVector [1; 0]%float);
                           Mem.CallSearch (SearchObject [1; 0]%float "alpha" "hybrid")]
                 (Sample.opened (Sample.world Sample.rows3)))
              Sample.rows3
              (Sample.connected Sample.plain,
               Mem.logged [Mem.CallSearch (SearchVector [1; 0]%float);
                           Mem.CallText "alpha"; Mem.CallSearch (SearchVector [1; 0]%float);
                           Mem.CallSearch (SearchObject [1; 0]%float "alpha" "hybrid")]
                 (Sample.opened (Sample.world Sample.rows3))))
    as (results & Hrun & Hobject & Hshape); [reflexivity..|].
  exists results. eexists. split_and!; [exact Hrun|exact Hobject|].
  by rewrite (Forall2_length _ _ _ Hshape).
Defined.






Lemma C9_witness :
  ∃ results s2,
    search Sample.env "chunks" [1; 0]%float None
      (Sample.connected Sample.lance, Sample.world [Sample.broken_row])
    = (Ok results, s2) ∧
    length results = 1 ∧
    ∃ res, res ∈ results ∧
           VectorDocument.metadata (VectorSearchResult.document res) = JObj ∅.
Proof.
  destruct (C9_malformed_metadata_reads_as_empty Sample.env Sample.broken_row
              (SyntaxError "Unexpected token in JSON") eq_refl) as (_ & Hsearch & _).
  destruct (Hsearch "chunks" [1; 0]%float None _ _ _ [Sample.broken_row]
              (Sample.connected Sample.lance,
               Mem.logged [Mem.CallSearch (SearchVector [1; 0]%float)]
                 (Sample.opened (Sample.world [Sample.broken_row])))
              (sample_open Sample.lance [Sample.broken_row]) eq_refl)
    as (results & Hrun & Hlen & res & Hres & _ & Hmeta); [by left|].
  exists results. eexists. split_and!; [exact Hrun|exact Hlen|by exists res].
Defined.

Lemma C10_witness :
  prop (Sample.rows3 !!! 1%nat) "vector" = JArr [JNum 0; JNum 1] ∧
  ∃ results,
    fst (hybridSearch Sample.plain_env "chunks" Sample.requests None
           (Sample.connected Sample.plain, Sample.world Sample.rows3)) = Ok results ∧
    length results = 3 ∧
    Forall (fun r => VectorDocument.vector (HybridSearchResult.document r) = [1; 0]%float)
      results.
Proof.
  split; [reflexivity|].
  destruct (C10_result_vector_is_the_query_vector Sample.plain_env "chunks" [1; 0]%float
              None Sample.requests None
              (Sample.connected Sample.plain, Sample.world Sample.rows3))
    as (_ & Hhybrid & _).
  eexists. split; [vm_compute; reflexivity|]. split; [reflexivity|].
  apply Hhybrid; [constructor|vm_compute; reflexivity].
Defined.

(** ** The other methods of the adapter *)

Lemma stable_of_preserves {W A} (m : M (@LanceVectorDatabase W * W) A) :
  preserves m → stable m.
Proof. intros Hm o w _. apply (Hm (o, w)). Qed.

Lemma stable_bind {W A B} (m : M (@LanceVectorDatabase W * W) A)
    (k : A → M (@LanceVectorDatabase W * W) B) :
  stable m → (∀ a, stable (k a)) → stable (bind m k).
Proof.
  intros Hm Hk o w Hdb. unfold bind. specialize (Hm o w Hdb).
  destruct (m (o, w)) as [[a|e] [o1 w1]]; simpl in *; subst o1; [|done].
  by apply Hk.
Qed.

Lemma stable_try_catch {W A} (body : M (@LanceVectorDatabase W * W) A) handler :
  stable body → (∀ e, stable (handler e)) → stable (try_catch body handler).
Proof.
  intros Hb Hh o w Hdb. unfold try_catch. specialize (Hb o w Hdb).
  destruct (body (o, w)) as [[a|e] [o1 w1]]; simpl in *; subst o1; [done|].
  by apply Hh.
Qed.

Lemma stable_ensureClient {W} (env : @Env W) : stable (ensureClient env).
Proof. intros o w Hdb. by rewrite ensureClient_connected. Qed.

#[global] Hint Resolve call_search_preserves run_search_preserves variantB_preserves
  try_variants_preserves the_lancedb_preserves fts_preserves : preserves.

Ltac stable_step :=
  first
    [ solve [auto]
    | apply stable_of_preserves; solve [solve_preserves]
    | apply stable_bind; [|intros ?]
    | apply stable_try_catch; [|intros ?]
    | case_match ].

Ltac solve_stable := repeat stable_step.

Section MoreAdapterFacts.
Import Listing.
Context {W : Type} (env : @Env W) (ext : @Lister W).
Implicit Types (o : @LanceVectorDatabase W) (w : W) (rows : list Row).

Lemma stable_openOrCreateTable name init : stable (openOrCreateTable env name init).
Proof.
  unfold openOrCreateTable, the_db. pose proof (stable_ensureClient env). solve_stable.
Qed.

Lemma stable_dropCollection name : stable (dropCollection env name).
Proof. unfold dropCollection. pose proof (stable_ensureClient env). solve_stable. Qed.

Lemma stable_search name q opts : stable (search env name q opts).
Proof. unfold search. pose proof (stable_openOrCreateTable name (Some [])). solve_stable. Qed.

Lemma stable_hybridSearch name reqs hopts : stable (hybridSearch env name reqs hopts).
Proof.
  unfold hybridSearch. pose proof (stable_openOrCreateTable name (Some [])).
  pose proof (stable_search name). solve_stable.
Qed.

Lemma stable_createHybridCollection name dim desc :
  stable (createHybridCollection env name dim desc).
Proof.
  unfold createHybridCollection. pose proof (stable_openOrCreateTable name (Some [])).
  solve_stable.
Qed.

Lemma stable_insert name docs : stable (insert env name docs).
Proof.
  unfold insert. destruct docs as [|d ds]; [solve_stable|].
  pose proof (stable_openOrCreateTable name (Some (toRow env <$> d :: ds))). solve_stable.
Qed.

Lemma stable_delete name ids : stable (delete env name ids).
Proof.
  unfold delete. destruct ids as [|id ids]; [solve_stable|].
  pose proof (stable_openOrCreateTable name). pose proof (stable_dropCollection name).
  solve_stable.
Qed.

Lemma stable_query name filter fields limit : stable (query env name filter fields limit).
Proof.
  unfold query. pose proof (stable_openOrCreateTable name (Some [])). solve_stable.
Qed.

Lemma stable_hasCollection name : stable (hasCollection env ext name).
Proof. unfold hasCollection. pose proof (stable_ensureClient env). solve_stable. Qed.

Lemma stable_listCollections : stable (listCollections env ext).
Proof. unfold listCollections. pose proof (stable_ensureClient env). solve_stable. Qed.

(** X1. Once the adapter is connected, no method assigns a field of it: the
    object is the same before and after every call, whatever the backend
    does and whether the call returns or throws. *)
Theorem connected_adapter_is_never_modified name dim desc docs q opts reqs hopts ids
    filter fields limit :
  stable (createCollection env name dim desc) ∧
  stable (createHybridCollection env name dim desc) ∧
  stable (dropCollection env name) ∧
  stable (hasCollection env ext name) ∧
  stable (listCollections env ext) ∧
  stable (insert env name docs) ∧
  stable (insertHybrid env name docs) ∧
  stable (search env name q opts) ∧
  stable (hybridSearch env name reqs hopts) ∧
  stable (delete env name ids) ∧
  stable (query env name filter fields limit).
Proof.
  split_and!.
  - unfold createCollection. pose proof (stable_openOrCreateTable name (Some [])).
    solve_stable.
  - apply stable_createHybridCollection.
  - apply stable_dropCollection.
  - apply stable_hasCollection.
  - apply stable_listCollections.
  - apply stable_insert.
  - apply stable_insert.
  - apply stable_search.
  - apply stable_hybridSearch.
  - apply stable_delete.
  - apply stable_query.
Qed.

(** *** [toRow] and [fromRow] *)

(** X4. A document written by [toRow] and read back by [fromRow] keeps its id,
    content, path, lines and extension.  Its vector is replaced by the
    fallback vector, its score is the default one (no row written by [toRow]
    has a [score]), and its metadata, [{}] when the document had none, comes
    back when [JSON.parse] inverts [JSON.stringify] on it. *)
Theorem fromRow_toRow doc score v :
  truthy (JSON_stringify env (metadata_or_empty doc)) = true →
  JSON_parse env (JSON_stringify env (metadata_or_empty doc)) = Ok (metadata_or_empty doc) →
  fromRow env (toRow env doc) score v
  = {| VectorSearchResult.document :=
         {| VectorDocument.id := VectorDocument.id doc;
            VectorDocument.vector := v;
            VectorDocument.content := VectorDocument.content doc;
            VectorDocument.relativePath := VectorDocument.relativePath doc;
            VectorDocument.startLine := VectorDocument.startLine doc;
            VectorDocument.endLine := VectorDocument.endLine doc;
            VectorDocument.fileExtension := VectorDocument.fileExtension doc;
            VectorDocument.metadata := metadata_or_empty doc |};
       VectorSearchResult.score := score |}.
Proof.
  intros Htruthy Hparse. unfold fromRow.
  assert (Hmeta : prop (toRow env doc) "metadata"
                  = JSON_stringify env (metadata_or_empty doc)) by reflexivity.
  rewrite Hmeta, Htruthy, Hparse. reflexivity.
Qed.

(** *** Empty batches *)

(** X3. [insert], [insertHybrid] and [delete] return at once on an empty list:
    they succeed and touch nothing even where LanceDB cannot be loaded, while
    the same calls with a non-empty list throw there and leave the adapter as
    it was, so that the next call tries the import again. *)
Theorem empty_batches_need_no_backend name o w e w' :
  db o = None →
  lancedb o = None →
  import_lancedb env w = (Throw e, w') →
  insert env name [] (o, w) = (Ok tt, (o, w)) ∧
  insertHybrid env name [] (o, w) = (Ok tt, (o, w)) ∧
  delete env name [] (o, w) = (Ok tt, (o, w)) ∧
  (∀ d ds, insert env name (d :: ds) (o, w)
           = (Throw (Error "Failed to load @lancedb/lancedb. Ensure it is installed."),
              (o, w'))) ∧
  (∀ id ids, delete env name (id :: ids) (o, w)
             = (Throw (Error "Failed to load @lancedb/lancedb. Ensure it is installed."),
                (o, w'))).
Proof.
  intros Hdb Hmod Himp.
  assert (Hsame : set_lancedb None o = o).
  { destruct o as [c d m]. simpl in *. by subst. }
  pose proof (ensureClient_import_fails env o w e w' Hdb Hmod Himp) as Hensure.
  rewrite Hsame in Hensure.
  split_and!; [done..| |].
  - intros d ds. unfold insert.
    by rewrite (bind_Throw _ _ _ _ _ (openOrCreateTable_ensure_throws env _ _ _ _ _ Hensure)).
  - intros id ids. apply delete_open_throws.
    by apply openOrCreateTable_ensure_throws.
Qed.

(** *** [hasCollection] and [listCollections] *)

(** X5. Once [ensureClient] has returned, [hasCollection] and [listCollections]
    return normally whatever [tableNames] and the filesystem do.  When
    [tableNames] resolves to an array, both answer from it:
    [hasCollection] says whether the name is in the array that
    [listCollections] returns. *)
Theorem listing_never_throws_once_connected name s o1 w1 :
  ensureClient env s = (Ok tt, (o1, w1)) →
  (∃ found s2, hasCollection env ext name s = (Ok found, s2)) ∧
  (∃ names s2, listCollections env ext s = (Ok names, s2)) ∧
  (∀ tableNames names w2,
     the_tableNames ext o1 = Some tableNames →
     tableNames w1 = (Ok (IsNames names), w2) →
     hasCollection env ext name s = (Ok (bool_decide (name ∈ names)), (o1, w2)) ∧
     listCollections env ext s = (Ok names, (o1, w2))).
Proof.
  intros Hensure. unfold hasCollection, listCollections.
  rewrite !(bind_Ok _ _ _ _ _ Hensure).
  unfold bind, try_catch, lift, ret, throw, inspect, this. simpl.
  destruct (the_tableNames ext o1) as [tableNames|].
  - destruct (tableNames w1) as [[[|names]|e] w2] eqn:Hnames; simpl.
    + split_and!; [eauto| |by intros ??? [= <-]; rewrite Hnames].
      destruct (fs_readdirSync ext (dbPath (config o1)) w2) as [[entries|e'] w3]; eauto.
    + split_and!; [eauto..|]. intros ? ? ? [= <-]. rewrite Hnames. by intros [= <- <-].
    + split_and!; [eauto| |by intros ??? [= <-]; rewrite Hnames].
      destruct (fs_readdirSync ext (dbPath (config o1)) w2) as [[entries|e'] w3]; eauto.
  - split_and!; [eauto| |done].
    destruct (fs_readdirSync ext (dbPath (config o1)) w1) as [[entries|e'] w3]; eauto.
Qed.

(** *** [query] *)

Lemma slice0_length {A} (max : Z) (l : list A) :
  (0 ≤ max)%Z → (Z.of_nat (length (slice0 max l)) ≤ max)%Z.
Proof.
  intros Hmax. unfold slice0. rewrite length_take.
  destruct (Z.ltb_spec max 0); lia.
Qed.

Lemma query_Ok_inv name filter fields limit s results :
  fst (query env name filter fields limit s) = Ok results →
  ∃ rows, results = project fields <$> slice0 (default 16384%Z limit) rows.
Proof.
  unfold query.
  destruct (openOrCreateTable env name (Some []) s) as [[table|e] s1] eqn:Hopen.
  2:{ by rewrite (bind_Throw _ _ _ _ _ Hopen). }
  rewrite (bind_Ok _ _ _ _ _ Hopen). unfold bind at 1.
  destruct (try_catch _ _ s1) as [[[|rows]|e] s2]; simpl; [done| |done].
  intros [= <-]. eauto.
Qed.



(** *** [delete] *)

(** X14. When the table has no [delete] method, or [delete] throws on the
    function it is handed, and the scan without a query throws, [delete]
    throws the error of the scan right after it: the collection is neither
    dropped nor rewritten. *)
Theorem delete_throws_where_the_scan_throws name id ids s table s1 s2 e s3 :
  openOrCreateTable env name (Some []) s = (Ok table, s1) →
  (t_delete table = None ∧ s2 = s1 ∨
   ∃ native e',
     t_delete table = Some native ∧
     lift (native (fun row => includes (id :: ids) (prop row "id"))) s1 = (Throw e', s2)) →
  run_search table SearchAll 1000000 s2 = (Throw e, s3) →
  delete env name (id :: ids) s = (Throw e, s3).
Proof.
  intros Hopen Hnative Hscan. unfold delete.
  rewrite (bind_Ok _ _ _ _ _ Hopen). unfold bind at 1.
  destruct Hnative as [[-> ->]|(native & e' & -> & Hthrows)].
  - unfold ret at 1. by rewrite (bind_Throw _ _ _ _ _ Hscan).
  - unfold try_catch. rewrite (bind_Throw _ _ _ _ _ Hthrows).
    unfold ret at 1. by rewrite (bind_Throw _ _ _ _ _ Hscan).
Qed.

End MoreAdapterFacts.

(** ** The other methods over the in-memory backend *)
Section MoreMemFacts.
Import Mem Listing.
Context (p : Profile) (parse : jsval → result jsval) (stringify : jsval → jsval).
Context (root : string).
Implicit Types (o : @LanceVectorDatabase World) (w : World) (rows : list Row).

Local Abbreviation env := (mem_env p parse stringify).
Local Arguments Z.to_nat : simpl never.

Ltac mem_step :=
  unfold holds in *;
  repeat (progress (unfold bind, try_catch, lift, ret, throw, this, inspect, log, rows_at,
                      set_dirs, add_index, has_index; simpl)).

(** *** [insert] *)

(** X8. [insert] into a collection that exists appends the rows of the
    documents, once and in order, and leaves the other collections alone. *)
Theorem insert_appends_to_an_existing_collection name d ds o w old :
  db o = Some (mem_db p root) →
  holds w root name old →
  ∃ w', insert env name (d :: ds) (o, w) = (Ok tt, (o, w')) ∧
        holds w' root name (old ++ (toRow env <$> d :: ds)) ∧
        (∀ dir, dir ≠ join root name → dirs w' !! dir = dirs w !! dir).
Proof.
  intros Hdb Hold. unfold insert.
  rewrite (bind_Ok _ _ _ _ _ (mem_open_existing p parse stringify root _ _ _ _ _ Hdb Hold)).
  mem_step. rewrite Hold. mem_step.
  eexists. split; [done|]. simpl. split.
  - apply lookup_insert_eq.
  - intros dir Hne. by rewrite lookup_insert_ne.
Qed.

(** X9. [insert] into a collection that does not exist stores every document
    twice: the table is created with the rows as initial data, and the same
    rows are then added to it. *)
Theorem insert_into_a_missing_collection_stores_twice name d ds o w :
  db o = Some (mem_db p root) →
  dirs w !! join root name = None →
  ∃ w', insert env name (d :: ds) (o, w) = (Ok tt, (o, w')) ∧
        holds w' root name ((toRow env <$> d :: ds) ++ (toRow env <$> d :: ds)) ∧
        (∀ dir, dir ≠ join root name → dirs w' !! dir = dirs w !! dir).
Proof.
  intros Hdb Hnone. unfold insert.
  assert (Hsome : toRow env <$> d :: ds ≠ []) by done.
  rewrite (bind_Ok _ _ _ _ _
             (mem_open_missing p parse stringify root name _ o w Hdb Hnone Hsome)).
  mem_step. rewrite lookup_insert_eq. mem_step.
  eexists. split; [done|]. simpl. split.
  - apply lookup_insert_eq.
  - intros dir Hne. by rewrite !lookup_insert_ne.
Qed.

(** *** [createCollection] and [dropCollection] *)

(** X11. [createCollection] creates nothing: it returns normally exactly
    when the collection exists already, and throws the refusal of the
    backend, which it asks for a table without rows, when the collection is
    missing.  Either way every table and index is left as it was. *)
Theorem createCollection_creates_nothing name dim desc o w :
  db o = Some (mem_db p root) →
  ∃ r w', createCollection env name dim desc (o, w) = (r, (o, w')) ∧
          dirs w' = dirs w ∧
          indexes w' = indexes w ∧
          (is_Some (dirs w !! join root name) → r = Ok tt) ∧
          (dirs w !! join root name = None →
           r = Throw (Error "At least one record or a schema needs to be provided")).
Proof.
  intros Hdb. unfold createCollection.
  destruct (dirs w !! join root name) as [rows|] eqn:Hrows.
  - rewrite (bind_Ok _ _ _ _ _ (mem_open_existing p parse stringify root _ _ _ _ _ Hdb Hrows)).
    eexists _, _. by split_and!.
  - rewrite (bind_Throw _ _ _ _ _
               (mem_open_missing_empty p parse stringify root _ _ _ Hdb Hrows)).
    eexists _, _. split_and!; [done..| |done]. by intros [? ?].
Qed.

(** X15. On a collection that is missing, every operation that opens the
    table without rows at hand throws the refusal of the backend and
    creates nothing: a collection comes into being only through [insert]. *)
Theorem only_insert_creates_a_collection name o w :
  db o = Some (mem_db p root) →
  dirs w !! join root name = None →
  let refusal := Error "At least one record or a schema needs to be provided" in
  let s' := (o, logged [CallCreateTable name []; CallOpenTable name] w) in
  (∀ dim desc, createHybridCollection env name dim desc (o, w) = (Throw refusal, s')) ∧
  (∀ q opts, search env name q opts (o, w) = (Throw refusal, s')) ∧
  (∀ reqs hopts, hybridSearch env name reqs hopts (o, w) = (Throw refusal, s')) ∧
  (∀ filter fields limit, query env name filter fields limit (o, w) = (Throw refusal, s')) ∧
  (∀ id ids, delete env name (id :: ids) (o, w) = (Throw refusal, s')) ∧
  (∀ d ds, ∃ w1, insert env name (d :: ds) (o, w) = (Ok tt, (o, w1)) ∧
                 is_Some (dirs w1 !! join root name)).
Proof.
  intros Hdb Hnone refusal s'.
  pose proof (mem_open_missing_empty p parse stringify root name o w Hdb Hnone) as Hopen.
  split_and!; intros.
  - by apply createHybridCollection_open_throws.
  - by apply search_open_throws.
  - by apply hybridSearch_open_throws.
  - by apply query_open_throws.
  - by apply delete_open_throws.
  - unfold insert.
    assert (Hsome : toRow env <$> d :: ds ≠ []) by done.
    rewrite (bind_Ok _ _ _ _ _
               (mem_open_missing p parse stringify root name _ o w Hdb Hnone Hsome)).
    mem_step. rewrite lookup_insert_eq. mem_step.
    eexists. split; [done|]. simpl. rewrite lookup_insert_eq. eauto.
Qed.

(** Dropping a collection that is not there: [db.dropTable] throws when it
    exists, the error is caught, and the directory is not there to
    remove. *)
Lemma mem_dropCollection_missing name o w :
  db o = Some (mem_db p root) →
  dbPath (config o) = root →
  dirs w !! join root name = None →
  dropCollection env name (o, w)
  = (Ok tt, (o, logged (if p_dropTable p then [CallDropTable name] else []) w)).
Proof.
  intros Hdb Hroot Hnone. unfold dropCollection.
  rewrite (bind_Ok _ _ _ _ _ (ensureClient_connected _ _ _ (mk_is_Some _ _ Hdb))).
  unfold getTablePath. mem_step. rewrite Hdb. mem_step.
  destruct (p_dropTable p); mem_step.
  - rewrite Hnone. mem_step. rewrite Hroot, Hnone.
    by rewrite bool_decide_eq_false_2 by (by intros [? ?]).
  - rewrite Hroot, Hnone. rewrite bool_decide_eq_false_2 by (by intros [? ?]).
    by destruct w.
Qed.

(** X12. [dropCollection] never throws on a connected adapter, whether or not
    the database has a [dropTable] method and whether or not the collection
    exists; afterwards the collection is gone and the others are as they
    were. *)
Theorem dropCollection_removes_the_collection name o w :
  db o = Some (mem_db p root) →
  dbPath (config o) = root →
  ∃ w', dropCollection env name (o, w) = (Ok tt, (o, w')) ∧
        dirs w' !! join root name = None ∧
        (∀ dir, dir ≠ join root name → dirs w' !! dir = dirs w !! dir).
Proof.
  intros Hdb Hroot.
  destruct (dirs w !! join root name) as [rows|] eqn:Hrows.
  - rewrite (mem_dropCollection p parse stringify root _ _ _ _ Hdb Hroot Hrows).
    eexists. split; [done|]. simpl. split.
    + apply lookup_delete_eq.
    + intros dir Hne. by rewrite lookup_delete_ne.
  - rewrite (mem_dropCollection_missing _ _ _ Hdb Hroot Hrows).
    eexists. split; [done|]. by split.
Qed.

(** *** [hasCollection] and [listCollections] *)

Lemma elem_of_names_under name w :
  name ∈ names_under root w ↔ is_Some (dirs w !! join root name).
Proof.
  unfold names_under, join. rewrite list_elem_of_omap. split.
  - intros ([dir rows] & Hin & Hstrip). simpl in Hstrip.
    apply strip_prefix_sound in Hstrip. apply elem_of_map_to_list in Hin.
    exists rows. by rewrite <- append_assoc, <- Hstrip.
  - intros [rows Hrows]. exists (root +:+ "/" +:+ name, rows). split.
    + by apply elem_of_map_to_list.
    + simpl. rewrite <- append_assoc. apply strip_prefix_app.
Qed.

Lemma directories_fmap (names : list string) :
  name <$> List.filter isDirectory ((fun n => {| name := n; isDirectory := true |}) <$> names)
  = names.
Proof. induction names as [|n names IH]; [done|]. simpl. by f_equal. Qed.

Lemma mem_hasCollection tn name o w :
  db o = Some (mem_db p root) →
  dbPath (config o) = root →
  hasCollection env (mem_lister tn root) name (o, w)
  = (Ok (bool_decide (is_Some (dirs w !! join root name))), (o, w)).
Proof.
  intros Hdb Hroot. unfold hasCollection.
  rewrite (bind_Ok _ _ _ _ _ (ensureClient_connected _ _ _ (mk_is_Some _ _ Hdb))).
  unfold the_tableNames, getTablePath. mem_step. rewrite Hdb.
  destruct tn; mem_step.
  - do 2 f_equal. apply bool_decide_ext, elem_of_names_under.
  - by rewrite Hroot.
Qed.

Lemma mem_listCollections tn o w :
  db o = Some (mem_db p root) →
  dbPath (config o) = root →
  listCollections env (mem_lister tn root) (o, w) = (Ok (names_under root w), (o, w)).
Proof.
  intros Hdb Hroot. unfold listCollections.
  rewrite (bind_Ok _ _ _ _ _ (ensureClient_connected _ _ _ (mk_is_Some _ _ Hdb))).
  unfold the_tableNames. mem_step. rewrite Hdb.
  destruct tn; mem_step; [done|].
  by rewrite Hroot, directories_fmap.
Qed.

(** X13. A collection that [insert] has written to is reported by
    [hasCollection] and listed by [listCollections], which ask
    [db.tableNames]; once it has been dropped it is neither. *)
Theorem inserted_collections_are_listed_until_dropped name d ds o w :
  connected_to p root o →
  ∃ w1 w2 names1 names2,
    insert env name (d :: ds) (o, w) = (Ok tt, (o, w1)) ∧
    hasCollection env (mem_lister true root) name (o, w1) = (Ok true, (o, w1)) ∧
    listCollections env (mem_lister true root) (o, w1) = (Ok names1, (o, w1)) ∧
    name ∈ names1 ∧
    dropCollection env name (o, w1) = (Ok tt, (o, w2)) ∧
    hasCollection env (mem_lister true root) name (o, w2) = (Ok false, (o, w2)) ∧
    listCollections env (mem_lister true root) (o, w2) = (Ok names2, (o, w2)) ∧
    name ∉ names2.
Proof.
  intros (Hdb & _ & Hroot).
  assert (∃ w1 rows, insert env name (d :: ds) (o, w) = (Ok tt, (o, w1)) ∧
                     holds w1 root name rows) as (w1 & rows & Hinsert & Hrows).
  { unfold insert.
    destruct (dirs w !! join root name) as [old|] eqn:Hold.
    - rewrite (bind_Ok _ _ _ _ _
                 (mem_open_existing p parse stringify root _ _ _ _ _ Hdb Hold)).
      mem_step. rewrite Hold. mem_step.
      eexists _, _. split; [done|]. apply lookup_insert_eq.
    - assert (Hsome : toRow env <$> d :: ds ≠ []) by done.
      rewrite (bind_Ok _ _ _ _ _
                 (mem_open_missing p parse stringify root name _ o w Hdb Hold Hsome)).
      mem_step. rewrite lookup_insert_eq. mem_step.
      eexists _, _. split; [done|]. apply lookup_insert_eq. }
  pose proof (mem_dropCollection p parse stringify root _ _ _ _ Hdb Hroot Hrows) as Hdrop.
  eexists w1, _, _, _.
  rewrite Hinsert, Hdrop, !mem_hasCollection, !mem_listCollections by done.
  assert (Hthere : dirs w1 !! join root name = Some rows) by done.
  split_and!; try done.
  - by rewrite bool_decide_eq_true_2 by eauto.
  - apply elem_of_names_under. eauto.
  - simpl. rewrite lookup_delete_eq. by rewrite bool_decide_eq_false_2 by (by intros [? ?]).
  - rewrite elem_of_names_under. simpl. rewrite lookup_delete_eq. by intros [? ?].
Qed.

(** *** [insert] and then [search] *)

(** X10. What [insert] has stored, [search] reads back: after an insert
    into a collection, a search returns the first [topK] rows of the
    backend's ranking of the old rows followed by the rows of the new
    documents, each converted by [fromRow]. *)
Theorem inserted_documents_are_searched_back name d ds q opts k o w old :
  db o = Some (mem_db p root) →
  holds w root name old →
  p_accepts p q = true →
  asks_for opts k →
  ∃ w1 w2,
    insert env name (d :: ds) (o, w) = (Ok tt, (o, w1)) ∧
    search env name q opts (o, w1)
    = (Ok ((fun r => fromRow env r 0 q) <$>
           take (Z.to_nat k) (p_rank p q (old ++ (toRow env <$> d :: ds)))),
       (o, w2)).
Proof.
  intros Hdb Hold Hacc Hk. apply asks_for_default in Hk. subst k.
  assert (∃ w1, insert env name (d :: ds) (o, w) = (Ok tt, (o, w1)) ∧
                holds w1 root name (old ++ (toRow env <$> d :: ds))) as (w1 & Hins & Hnew).
  { unfold insert.
    rewrite (bind_Ok _ _ _ _ _ (mem_open_existing p parse stringify root _ _ _ _ _ Hdb Hold)).
    mem_step. rewrite Hold. mem_step.
    eexists. split; [done|]. apply lookup_insert_eq. }
  exists w1. eexists. split; [done|].
  by rewrite (mem_search p parse stringify root name q opts o w1 _ Hdb Hnew Hacc).
Qed.

(** *** [hybridSearch] without fusion *)

Lemma mem_variantB_chain_throws dir v t k o w :
  p_chain p = ChainThrows →
  ∃ e w', variantB (mem_table p dir) v t k (o, w) = (Throw e, (o, w')) ∧
          dirs w' = dirs w.
Proof.
  intros Hchain. unfold variantB, call_search. mem_step.
  destruct (p_accepts p v); mem_step; [|by eexists _, _].
  rewrite Hchain. mem_step. by eexists _, _.
Qed.

(** X16. Against a LanceDB that rejects both fused call shapes, [hybridSearch]
    returns what [search] returns for the dense vector of the requests and
    the same limit: the same documents with the same scores, in the same
    order.  This holds also when the query vector is rejected, where both
    return the empty list. *)
Theorem hybridSearch_without_fusion_is_dense_search name reqs hopts o w rows :
  db o = Some (mem_db p root) →
  holds w root name rows →
  p_object_search p = false →
  p_chain p = ChainThrows →
  ∃ dense wd wh,
    search env name (hybrid_vector reqs)
      (Some (SearchOptions.mk (Some (hybrid_topK reqs hopts)))) (o, w)
    = (Ok dense, (o, wd)) ∧
    hybridSearch env name reqs hopts (o, w) = (Ok (as_hybrid <$> dense), (o, wh)).
Proof.
  intros Hdb Hrows Hobj Hchain.
  set (v := hybrid_vector reqs). set (t := hybrid_text reqs).
  set (k := hybrid_topK reqs hopts). set (dir := join root name).
  set (w1 := logged [CallOpenTable name] w).
  pose proof (mem_open_existing p parse stringify root name (Some []) o w rows Hdb Hrows)
    as Hopen.
  pose proof (mem_variantA_unsupported p dir v t k o w1 Hobj) as HA.
  set (wA := logged [CallSearch (SearchObject v t "hybrid")] w1) in HA.
  destruct (mem_variantB_chain_throws dir v t k o wA Hchain) as (eB & wB & HB & HdirsB).
  assert (HrowsB : dirs wB !! dir = Some rows) by (by rewrite HdirsB).
  pose proof (mem_run_search_vector p dir v k o wB rows HrowsB) as HC.
  pose proof (mem_run_search_vector p dir v k o w1 rows Hrows) as Hdense.
  assert (Hcascade : try_variants (mem_table p dir) v t k (o, w1)
                     = run_search (mem_table p dir) (SearchVector v) k (o, wB)).
  { by rewrite (try_variants_C _ _ _ _ _ _ _ _ _ HA HB). }
  unfold hybridSearch. rewrite (bind_Ok _ _ _ _ _ Hopen).
  fold v t k. simpl t_search. fold dir w1.
  unfold bind at 1. unfold try_catch at 1. unfold bind at 1. rewrite Hcascade, HC.
  destruct (p_accepts p v) eqn:Hacc.
  - rewrite (search_delivers _ name v (Some (SearchOptions.mk (Some k))) _ _ _ _ _ Hopen
               Hdense).
    eexists _, _, _. split; [done|]. simpl. unfold ret. do 2 f_equal.
    rewrite <- list_fmap_compose. by apply list_fmap_ext.
  - rewrite (search_swallows _ name v (Some (SearchOptions.mk (Some k))) _ _ _ _ _ Hopen
               Hdense).
    set (wC := logged [CallSearch (SearchVector v)] wB).
    assert (HrowsC : holds wC root name rows) by done.
    pose proof (mem_open_existing p parse stringify root name (Some []) o wC rows Hdb HrowsC)
      as HopenC.
    pose proof (mem_run_search_vector p dir v k o (logged [CallOpenTable name] wC) rows
                  HrowsC) as HdenseC.
    rewrite Hacc in HdenseC.
    eexists _, _, _. split; [done|].
    rewrite (bind_Ok _ _ _ _ _
               (search_swallows _ name v (Some (SearchOptions.mk (Some k))) _ _ _ _ _ HopenC
                  HdenseC)).
    done.
Qed.

End MoreMemFacts.

(** ** Connecting *)
Section ClientFacts.
Context {W : Type} (env : @Env W).

(** X2. [ensureClient] never changes the configuration.  On a connected adapter
    it does nothing at all.  On an adapter that is not connected it either
    returns with the module loaded, or throws and leaves the adapter
    unconnected, so that the next call tries again. *)
Theorem ensureClient_connects_or_leaves_unconnected o w :
  let run := ensureClient env (o, w) in
  let o1 := fst (snd run) in
  config o1 = config o ∧
  (is_Some (db o) → run = (Ok tt, (o, w))) ∧
  (db o = None →
   match fst run with
   | Ok _ => is_Some (lancedb o1)
   | Throw _ => db o1 = None
   end).
Proof.
  cbv zeta. split_and!.
  - unfold ensureClient, the_lancedb, bind, try_catch, lift, this, update, ret, throw. simpl.
    destruct (db o); [done|].
    destruct (lancedb o) eqn:Hmod; simpl.
    + destruct (fs_mkdirSync env _ w) as [[[]|e] w1]; simpl; [|done].
      rewrite Hmod. by destruct (connect _ _ w1) as [[d|e] w2].
    + destruct (import_lancedb env w) as [[m|e] w1]; simpl; [|done].
      destruct (fs_mkdirSync env _ w1) as [[[]|e] w2]; simpl; [|done].
      by destruct (connect _ _ w2) as [[d|e] w3].
  - apply ensureClient_connected.
  - intros Hdb.
    unfold ensureClient, the_lancedb, bind, try_catch, lift, this, update, ret, throw. simpl.
    rewrite Hdb.
    destruct (lancedb o) eqn:Hmod; simpl.
    + destruct (fs_mkdirSync env _ w) as [[[]|e] w1]; simpl; [|done].
      rewrite Hmod. by destruct (connect _ _ w1) as [[d|e] w2]; simpl; eauto.
    + destruct (import_lancedb env w) as [[m|e] w1]; simpl; [|done].
      destruct (fs_mkdirSync env _ w1) as [[[]|e] w2]; simpl; [|done].
      by destruct (connect _ _ w2) as [[d|e] w3]; simpl; eauto.
Qed.

End ClientFacts.

(** ** The further properties at concrete collections *)

Lemma sample_query :
  fst (query Sample.env "chunks" Sample.path_filter ["id"] (Some 2%Z)
         (Sample.connected Sample.lance, Sample.world Sample.rows3))
  = Ok [].
Proof. reflexivity. Qed.

Lemma sample_import_fails :
  import_lancedb Sample.missing_env Sample.empty_world
  = (Throw (Error "Cannot find module '@lancedb/lancedb'"),
     Mem.logged [Mem.CallImport] Sample.empty_world).
Proof. reflexivity. Qed.

Lemma connected_adapter_is_never_modified_witness :
  fst (snd (dropCollection Sample.env "chunks"
              (Sample.connected Sample.lance, Sample.world Sample.rows3)))
  = Sample.connected Sample.lance.
Proof.
  destruct (connected_adapter_is_never_modified Sample.env
              (Listing.mem_lister true ".lancedb") "chunks" 2%Z None docs2 [1; 0]%float None
              Sample.requests None ["a"] Sample.path_filter ["id"] None)
    as (_ & _ & Hdrop & _).
  apply Hdrop. by eexists.
Defined.

Lemma fromRow_toRow_witness :
  fromRow Sample.env (toRow Sample.env (doc "d1" "src/d.ts" "delta" [1; 0]%float)) 0
    [0; 1]%float
  = {| VectorSearchResult.document :=
         {| VectorDocument.id := JStr "d1";
            VectorDocument.vector := [0; 1]%float;
            VectorDocument.content := JStr "delta";
            VectorDocument.relativePath := JStr "src/d.ts";
            VectorDocument.startLine := JNum 1;
            VectorDocument.endLine := JNum 9;
            VectorDocument.fileExtension := JStr ".ts";
            VectorDocument.metadata := JObj ∅ |};
       VectorSearchResult.score := 0 |}.
Proof.
  apply (fromRow_toRow Sample.env (doc "d1" "src/d.ts" "delta" [1; 0]%float) 0 [0; 1]%float);
    reflexivity.
Defined.

Lemma empty_batches_need_no_backend_witness :
  insert Sample.missing_env "chunks" [] (Sample.fresh, Sample.empty_world)
  = (Ok tt, (Sample.fresh, Sample.empty_world)) ∧
  insert Sample.missing_env "chunks" docs2 (Sample.fresh, Sample.empty_world)
  = (Throw (Error "Failed to load @lancedb/lancedb. Ensure it is installed."),
     (Sample.fresh, Mem.logged [Mem.CallImport] Sample.empty_world)).
Proof.
  destruct (empty_batches_need_no_backend Sample.missing_env "chunks" Sample.fresh
              Sample.empty_world _ _ eq_refl eq_refl sample_import_fails)
    as (Hnone & _ & _ & Hsome & _).
  split; [exact Hnone | apply Hsome].
Defined.

Lemma listing_never_throws_once_connected_witness :
  Listing.hasCollection Sample.env (Listing.mem_lister true ".lancedb") "chunks"
    (Sample.connected Sample.lance, Sample.world Sample.rows3)
  = (Ok true, (Sample.connected Sample.lance, Sample.world Sample.rows3)) ∧
  Listing.listCollections Sample.env (Listing.mem_lister true ".lancedb")
    (Sample.connected Sample.lance, Sample.world Sample.rows3)
  = (Ok ["chunks"], (Sample.connected Sample.lance, Sample.world Sample.rows3)).
Proof.
  destruct (listing_never_throws_once_connected Sample.env
              (Listing.mem_lister true ".lancedb") "chunks"
              (Sample.connected Sample.lance, Sample.world Sample.rows3)
              (Sample.connected Sample.lance) (Sample.world Sample.rows3) eq_refl)
    as (_ & _ & Hnames).
  destruct (Hnames _ ["chunks"] (Sample.world Sample.rows3) eq_refl eq_refl) as [Hhas Hlist].
  split; [exact Hhas | exact Hlist].
Defined.



Lemma delete_throws_where_the_scan_throws_witness :
  delete Sample.env "chunks" ["a"]
    (Sample.connected Sample.lance, Sample.world Sample.rows3)
  = (Throw (TypeError "search needs a query vector or text"),
     (Sample.connected Sample.lance,
      Mem.logged [Mem.CallSearch SearchAll; Mem.CallDelete]
        (Sample.opened (Sample.world Sample.rows3)))).
Proof.
  apply (delete_throws_where_the_scan_throws Sample.env "chunks" "a" []
           (Sample.connected Sample.lance, Sample.world Sample.rows3)
           (Sample.chunks_table Sample.lance)
           (Sample.connected Sample.lance, Sample.opened (Sample.world Sample.rows3))
           (Sample.connected Sample.lance,
            Mem.logged [Mem.CallDelete] (Sample.opened (Sample.world Sample.rows3)))).
  - apply sample_open.
  - right. eexists _, (TypeError "predicate must be a string"). split; reflexivity.
  - reflexivity.
Defined.

Lemma insert_appends_to_an_existing_collection_witness :
  ∃ w', insert Sample.env "chunks" docs2
          (Sample.connected Sample.lance, Sample.world Sample.rows3)
        = (Ok tt, (Sample.connected Sample.lance, w')) ∧
        holds w' ".lancedb" "chunks" (Sample.rows3 ++ (toRow Sample.env <$> docs2)).
Proof.
  destruct (insert_appends_to_an_existing_collection Sample.lance Sample.parse
              Sample.stringify ".lancedb" "chunks" (doc "d1" "src/d.ts" "delta" [1; 0]%float)
              [doc "d2" "src/d.ts" "epsilon" [0; 1]%float]
              (Sample.connected Sample.lance) (Sample.world Sample.rows3) Sample.rows3
              eq_refl (sample_holds Sample.rows3)) as (w' & Hrun & Hrows & _).
  by exists w'.
Defined.

Lemma insert_into_a_missing_collection_stores_twice_witness :
  ∃ w', insert Sample.env "chunks" docs2 (Sample.connected Sample.lance, Sample.empty_world)
        = (Ok tt, (Sample.connected Sample.lance, w')) ∧
        holds w' ".lancedb" "chunks"
          ((toRow Sample.env <$> docs2) ++ (toRow Sample.env <$> docs2)).
Proof.
  destruct (insert_into_a_missing_collection_stores_twice Sample.lance Sample.parse
              Sample.stringify ".lancedb" "chunks" (doc "d1" "src/d.ts" "delta" [1; 0]%float)
              [doc "d2" "src/d.ts" "epsilon" [0; 1]%float]
              (Sample.connected Sample.lance) Sample.empty_world eq_refl eq_refl)
    as (w' & Hrun & Hrows & _).
  by exists w'.
Defined.

Lemma createCollection_creates_nothing_witness :
  ∃ r w', createCollection Sample.env "notes" 2%Z None
            (Sample.connected Sample.lance, Sample.world Sample.rows3)
          = (r, (Sample.connected Sample.lance, w')) ∧
          Mem.dirs w' = Mem.dirs (Sample.world Sample.rows3) ∧
          r = Throw (Error "At least one record or a schema needs to be provided").
Proof.
  destruct (createCollection_creates_nothing Sample.lance Sample.parse Sample.stringify
              ".lancedb" "notes" 2%Z None (Sample.connected Sample.lance)
              (Sample.world Sample.rows3) eq_refl)
    as (r & w' & Hrun & Hdirs & _ & _ & Hmissing).
  exists r, w'. split_and!; [exact Hrun|exact Hdirs|by apply Hmissing].
Defined.

Lemma only_insert_creates_a_collection_witness :
  search Sample.env "notes" [1; 0]%float None
    (Sample.connected Sample.lance, Sample.world Sample.rows3)
  = (Throw (Error "At least one record or a schema needs to be provided"),
     (Sample.connected Sample.lance,
      Mem.logged [Mem.CallCreateTable "notes" []; Mem.CallOpenTable "notes"]
        (Sample.world Sample.rows3))).
Proof.
  destruct (only_insert_creates_a_collection Sample.lance Sample.parse Sample.stringify
              ".lancedb" "notes" (Sample.connected Sample.lance)
              (Sample.world Sample.rows3) eq_refl eq_refl) as (_ & Hsearch & _).
  apply Hsearch.
Defined.

Lemma dropCollection_removes_the_collection_witness :
  ∃ w', dropCollection Sample.env "chunks"
          (Sample.connected Sample.lance, Sample.world Sample.rows3)
        = (Ok tt, (Sample.connected Sample.lance, w')) ∧
        Mem.dirs w' !! ".lancedb/chunks" = None.
Proof.
  destruct (dropCollection_removes_the_collection Sample.lance Sample.parse Sample.stringify
              ".lancedb" "chunks" (Sample.connected Sample.lance)
              (Sample.world Sample.rows3) eq_refl eq_refl) as (w' & Hrun & Hgone & _).
  exists w'. split; [exact Hrun | exact Hgone].
Defined.

Lemma inserted_collections_are_listed_until_dropped_witness :
  ∃ w1 w2,
    insert Sample.env "notes" docs2
      (Sample.connected Sample.lance, Sample.world Sample.rows3)
    = (Ok tt, (Sample.connected Sample.lance, w1)) ∧
    Listing.hasCollection Sample.env (Listing.mem_lister true ".lancedb") "notes"
      (Sample.connected Sample.lance, w1)
    = (Ok true, (Sample.connected Sample.lance, w1)) ∧
    dropCollection Sample.env "notes" (Sample.connected Sample.lance, w1)
    = (Ok tt, (Sample.connected Sample.lance, w2)) ∧
    Listing.hasCollection Sample.env (Listing.mem_lister true ".lancedb") "notes"
      (Sample.connected Sample.lance, w2)
    = (Ok false, (Sample.connected Sample.lance, w2)).
Proof.
  destruct (inserted_collections_are_listed_until_dropped Sample.lance Sample.parse
              Sample.stringify ".lancedb" "notes"
              (doc "d1" "src/d.ts" "delta" [1; 0]%float)
              [doc "d2" "src/d.ts" "epsilon" [0; 1]%float]
              (Sample.connected Sample.lance) (Sample.world Sample.rows3)
              (sample_connected Sample.lance))
    as (w1 & w2 & names1 & names2 & Hinsert & Hhas & _ & _ & Hdrop & Hhas' & _).
  by exists w1, w2.
Defined.

Lemma inserted_documents_are_searched_back_witness :
  ∃ w1 w2,
    insert Sample.env "chunks" docs2
      (Sample.connected Sample.lance, Sample.world Sample.rows3)
    = (Ok tt, (Sample.connected Sample.lance, w1)) ∧
    search Sample.env "chunks" [1; 0]%float None (Sample.connected Sample.lance, w1)
    = (Ok ((fun r => fromRow Sample.env r 0 [1; 0]%float) <$>
           (Sample.rows3 ++ (toRow Sample.env <$> docs2))),
       (Sample.connected Sample.lance, w2)).
Proof.
  exact (inserted_documents_are_searched_back Sample.lance Sample.parse Sample.stringify
           ".lancedb" "chunks" (doc "d1" "src/d.ts" "delta" [1; 0]%float)
           [doc "d2" "src/d.ts" "epsilon" [0; 1]%float] [1; 0]%float None 10
           (Sample.connected Sample.lance) (Sample.world Sample.rows3) Sample.rows3
           eq_refl (sample_holds Sample.rows3) eq_refl eq_refl).
Defined.

Lemma ensureClient_connects_or_leaves_unconnected_witness :
  db (fst (snd (ensureClient Sample.missing_env (Sample.fresh, Sample.empty_world)))) = None.
Proof.
  destruct (ensureClient_connects_or_leaves_unconnected Sample.missing_env Sample.fresh
              Sample.empty_world) as (_ & _ & Hthrows).
  exact (Hthrows eq_refl).
Defined.

Lemma hybridSearch_without_fusion_is_dense_search_witness :
  ∃ dense wd wh,
    search Sample.plain_env "chunks" [1; 0]%float (Some (SearchOptions.mk (Some 10%Z)))
      (Sample.connected Sample.plain, Sample.world Sample.rows3)
    = (Ok dense, (Sample.connected Sample.plain, wd)) ∧
    hybridSearch Sample.plain_env "chunks" Sample.requests None
      (Sample.connected Sample.plain, Sample.world Sample.rows3)
    = (Ok (as_hybrid <$> dense), (Sample.connected Sample.plain, wh)).
Proof.
  exact (hybridSearch_without_fusion_is_dense_search Sample.plain Sample.parse
           Sample.stringify ".lancedb" "chunks" Sample.requests None
           (Sample.connected Sample.plain) (Sample.world Sample.rows3) Sample.rows3
           eq_refl (sample_holds Sample.rows3) eq_refl eq_refl).
Defined.
